(** * dn-tracker: history-log columns, CSV export, date-range checks and the
      daily dashboard's optimistic edits

    A shallow embedding of
      - [src/HistoryLogViewer.tsx] and the second viewer of
        [src/unnamed/part_001] ([orderColumns], [normaliseDateInput], [load],
        [handleExport]),
      - the export route of [src/src/app/api/reset/weekly/route.ts]
        ([parseDateParam], [collectColumns], [escapeCsvValue], [toCsv], [GET]),
      - the two dashboards of [src/unnamed/part_001] ([upsertFor] and
        [handleValueChange], with their expiry cells).

    Conventions.  A JavaScript string is a [string] of its UTF-8 bytes: the
    characters the code inspects (comma, double quote, line feed) are ASCII
    and never occur inside a multi-byte sequence.  An instant is the number
    of milliseconds since the epoch, a [Z]; an ISO timestamp string is
    identified with the instant it denotes.  A row received from the store
    ([Record<string, unknown>]) is the list of its own entries in
    [Object.keys] order; it is a plain object, so that reading a property
    it has not itself gives what [Object.prototype] has under that name.
    Platform functions the repository calls but does not define
    ([String.prototype.localeCompare], date-fns [parseISO]) are arguments of
    the functions that call them. *)

From Stdlib Require Import String Ascii List ZArith Lia Bool Permutation Sorted.
Import ListNotations.

Local Open Scope string_scope.
Local Open Scope list_scope.
Local Open Scope Z_scope.

(** String concatenation, the [+] of JavaScript on strings. *)
Infix "+++" := String.append (right associativity, at level 60).

(* ================================================================== *)
(** * Part I.  The program *)

(* ------------------------------------------------------------------ *)
(** ** JavaScript built-ins used by the code *)

Definition DQUOTE : ascii := "034"%char.
Definition COMMA : ascii := ","%char.
Definition LF : ascii := "010"%char.
Definition CR : ascii := "013"%char.

Definition str1 (c : ascii) : string := String c EmptyString.

(** [CRLF] is the separator written '\r\n' in [toCsv]. *)
Definition CRLF : string := String CR (str1 LF).

(** [Array.prototype.join]. *)
Definition join (sep : string) (l : list string) : string := String.concat sep l.

(** [x] goes in front of the first element it does not follow. *)
Fixpoint sort_insert {A : Type} (cmp : A -> A -> Z) (x : A) (l : list A) : list A :=
  match l with
  | [] => [x]
  | y :: l' => if cmp x y <=? 0 then x :: l else y :: sort_insert cmp x l'
  end.

(** [Array.prototype.sort(cmp)]: the sort is stable (ECMAScript 2019), and
    for a consistent comparator the stable sorted arrangement is unique;
    inserting from the right computes it. *)
Definition js_sort {A : Type} (cmp : A -> A -> Z) (l : list A) : list A :=
  fold_right (sort_insert cmp) [] l.

(** [Array.prototype.indexOf]: the first position, [-1] when absent. *)
Fixpoint indexOf (l : list string) (a : string) : Z :=
  match l with
  | [] => -1
  | x :: l' =>
      if String.eqb x a then 0
      else let i := indexOf l' a in if i =? -1 then -1 else i + 1
  end.

(** A [Set<string>] keeps its members in insertion order. *)
Definition set_has (s : list string) (k : string) : bool :=
  existsb (String.eqb k) s.

Definition set_add (s : list string) (k : string) : list string :=
  if set_has s k then s else s ++ [k].

(* ------------------------------------------------------------------ *)
(** ** Decimal text and ISO timestamps *)

Definition digit (d : Z) : ascii :=
  match d with
  | 0 => "0" | 1 => "1" | 2 => "2" | 3 => "3" | 4 => "4"
  | 5 => "5" | 6 => "6" | 7 => "7" | 8 => "8" | _ => "9"
  end%char.

(** The [k] low decimal digits of [n], zero padded. *)
Fixpoint pad (k : nat) (n : Z) : string :=
  match k with
  | O => ""
  | S k' => pad k' (n / 10) +++ str1 (digit (n mod 10))
  end.

Fixpoint digits_of (fuel : nat) (n : Z) : string :=
  match fuel with
  | O => ""
  | S f => (if n <? 10 then "" else digits_of f (n / 10)) +++ str1 (digit (n mod 10))
  end.

(** [String(n)] for an integer number [n] that JavaScript prints in full
    (below 10^21 in absolute value). *)
Definition string_of_Z (n : Z) : string :=
  if n <? 0 then "-" +++ digits_of (S (Z.to_nat (Z.log2 (- n)))) (- n)
  else digits_of (S (Z.to_nat (Z.log2 n))) n.

Definition MS_PER_DAY : Z := 86400000.

(** Year, month and day of a day number counted from 1970-01-01
    (proleptic Gregorian calendar). *)
Definition civil_from_days (days : Z) : Z * Z * Z :=
  let z := days + 719468 in
  let era := z / 146097 in
  let doe := z - era * 146097 in
  let yoe := (doe - doe / 1460 + doe / 36524 - doe / 146096) / 365 in
  let doy := doe - (365 * yoe + yoe / 4 - yoe / 100) in
  let mp := (5 * doy + 2) / 153 in
  let d := doy - (153 * mp + 2) / 5 + 1 in
  let m := if mp <? 10 then mp + 3 else mp - 9 in
  let y := yoe + era * 400 + (if m <=? 2 then 1 else 0) in
  (y, m, d).

Definition days_from_civil (y m d : Z) : Z :=
  let y' := if m <=? 2 then y - 1 else y in
  let era := y' / 400 in
  let yoe := y' - era * 400 in
  let doy := (153 * (if m >? 2 then m - 3 else m + 9) + 2) / 5 + d - 1 in
  let doe := yoe * 365 + yoe / 4 - yoe / 100 + doy in
  era * 146097 + doe - 719468.

(** [Date.prototype.toISOString] of the instant [t]:
    YYYY-MM-DDTHH:mm:ss.sssZ, the year with a sign and six digits outside
    0..9999. *)
Definition toISOString (t : Z) : string :=
  let '(y, m, d) := civil_from_days (t / MS_PER_DAY) in
  let r := t mod MS_PER_DAY in
  (if (0 <=? y) && (y <=? 9999) then pad 4 y
   else (if y <? 0 then "-" +++ pad 6 (- y) else "+" +++ pad 6 y))
  +++ "-" +++ pad 2 m +++ "-" +++ pad 2 d
  +++ "T" +++ pad 2 (r / 3600000) +++ ":" +++ pad 2 (r / 60000 mod 60)
  +++ ":" +++ pad 2 (r / 1000 mod 60) +++ "." +++ pad 3 (r mod 1000) +++ "Z".

(* ------------------------------------------------------------------ *)
(** ** date-fns, for a zone at a fixed offset from UTC

    date-fns works in the local time zone.  [tz] is the zone's offset in
    milliseconds (local = UTC + [tz]); the zone has no daylight saving, as
    the application's own zone (WIB, UTC+7). *)

Definition addDays (t : Z) (n : Z) : Z := t + n * MS_PER_DAY.

Definition startOfDay (tz : Z) (t : Z) : Z := t - (t + tz) mod MS_PER_DAY.

Definition endOfDay (tz : Z) (t : Z) : Z := startOfDay tz t + MS_PER_DAY - 1.

Definition isAfter (a b : Z) : bool := a >? b.

(** The number of local calendar days from [right] to [left]. *)
Definition differenceInCalendarDays (tz : Z) (left right : Z) : Z :=
  (left + tz) / MS_PER_DAY - (right + tz) / MS_PER_DAY.

Definition is_digit (c : ascii) : option Z :=
  let n := Z.of_nat (nat_of_ascii c) in
  if (48 <=? n) && (n <=? 57) then Some (n - 48) else None.

Definition days_in_month (y m : Z) : Z :=
  if m =? 2 then
    (if ((y mod 4 =? 0) && negb (y mod 100 =? 0)) || (y mod 400 =? 0) then 29 else 28)
  else if (m =? 4) || (m =? 6) || (m =? 9) || (m =? 11) then 30 else 31.

(** [parseISO] on the text of a date input, YYYY-MM-DD: local midnight of
    that day, [None] (an invalid Date) for any other text or an impossible
    day.  The viewers feed it the value of an <input type=date>. *)
Definition parseISO_date (tz : Z) (s : string) : option Z :=
  match list_ascii_of_string s with
  | [y1; y2; y3; y4; h1; m1; m2; h2; d1; d2] =>
      match is_digit y1, is_digit y2, is_digit y3, is_digit y4,
            is_digit m1, is_digit m2, is_digit d1, is_digit d2 with
      | Some a, Some b, Some c, Some d, Some e, Some f, Some g, Some h =>
          let y := 1000 * a + 100 * b + 10 * c + d in
          let m := 10 * e + f in
          let dd := 10 * g + h in
          if (Ascii.eqb h1 "-" && Ascii.eqb h2 "-" && (1 <=? m) && (m <=? 12)
              && (1 <=? dd) && (dd <=? days_in_month y m))%bool
          then Some (days_from_civil y m dd * MS_PER_DAY - tz)
          else None
      | _, _, _, _, _, _, _, _ => None
      end
  | _ => None
  end.

(* ------------------------------------------------------------------ *)
(** ** Rows of the history log

    [type HistoryRow = Record<string, unknown>].  The values are the scalar
    kinds a row of the store holds (absent, null, text, boolean, integer
    number), [Date], which [escapeCsvValue] and [formatCellValue] test
    for, and any other object or function, given by the text [String]
    makes of it. *)

Inductive JsValue : Type :=
| JUndefined
| JNull
| JDate (t : Z)
| JString (s : string)
| JBool (b : bool)
| JInt (n : Z)
| JObject (text : string).

Definition HistoryRow : Type := list (string * JsValue).

(** [Object.keys(row)]. *)
Definition Object_keys (row : HistoryRow) : list string := map fst row.

(** The row's own property [column], if it has one. *)
Fixpoint own_property (row : HistoryRow) (column : string) : option JsValue :=
  match row with
  | [] => None
  | (k, v) :: row' => if String.eqb k column then Some v else own_property row' column
  end.

(** The names of the functions every object inherits from
    [Object.prototype]. *)
Definition Object_prototype_functions : list string :=
  ["toString"; "toLocaleString"; "valueOf"; "hasOwnProperty"; "isPrototypeOf";
   "propertyIsEnumerable"; "__defineGetter__"; "__defineSetter__";
   "__lookupGetter__"; "__lookupSetter__"].

(** [Object.prototype[key]], which a row answers with for a property it
    has not itself: the rows are plain objects, as the store's client
    parses them from JSON.  [constructor] is the function [Object],
    [__proto__] is [Object.prototype] itself, the other members are
    functions of their own name; the texts are those [String] gives for
    them in Node. *)
Definition Object_prototype (key : string) : JsValue :=
  if String.eqb key "constructor" then JObject "function Object() { [native code] }"
  else if String.eqb key "__proto__" then JObject "[object Object]"
  else if existsb (String.eqb key) Object_prototype_functions
       then JObject ("function " +++ key +++ "() { [native code] }")
  else JUndefined.

(** [row[column]]: the row's own property, else what it inherits;
    [undefined] when there is neither. *)
Definition row_get (row : HistoryRow) (column : string) : JsValue :=
  match own_property row column with
  | Some v => v
  | None => Object_prototype column
  end.

(** [String(value)].  A [Date] never reaches it in this program
    ([escapeCsvValue] returns before); its ISO text stands for it. *)
Definition js_String (value : JsValue) : string :=
  match value with
  | JUndefined => "undefined"
  | JNull => "null"
  | JDate t => toISOString t
  | JString s => s
  | JBool b => if b then "true" else "false"
  | JInt n => string_of_Z n
  | JObject text => text
  end.

(* ------------------------------------------------------------------ *)
(** ** The viewer's column order ([HistoryLogViewer.tsx], [part_001]) *)

(** [PREFERRED_ORDER] of [src/HistoryLogViewer.tsx]. *)
Definition PREFERRED_ORDER : list string :=
  ["created_at"; "character_name"; "character_id"; "action"; "details"; "notes"].

(** [PREFERRED_ORDER] of the viewer in [src/unnamed/part_001]. *)
Definition PREFERRED_ORDER_snapshot : list string :=
  ["snapshot_date"; "character_name"; "character_id"; "action"; "details";
   "notes"; "daily_status"; "wtp"; "sdn_outskirts"; "sdn_core";
   "golden_active"; "golden_started_at"; "golden_expired_at"].

(** The loop of [orderColumns] that fills [seen]:
    [rows.forEach(row => Object.keys(row).forEach(key =>
       { if (!seen.has(key)) seen.add(key) }))]. *)
Definition seen_keys (rows : list HistoryRow) : list string :=
  fold_left
    (fun seen row =>
       fold_left (fun seen key => if negb (set_has seen key) then set_add seen key else seen)
                 (Object_keys row) seen)
    rows [].

(** The comparator handed to [sort] in [orderColumns]. *)
Definition compareColumns (localeCompare : string -> string -> Z)
  (preferred : list string) (a b : string) : Z :=
  let indexA := indexOf preferred a in
  let indexB := indexOf preferred b in
  if (indexA =? -1) && (indexB =? -1) then localeCompare a b
  else if indexA =? -1 then 1
  else if indexB =? -1 then -1
  else indexA - indexB.

(** [orderColumns(rows)], for the preference list [preferred] of either
    viewer and the platform's [localeCompare]. *)
Definition orderColumns (localeCompare : string -> string -> Z)
  (preferred : list string) (rows : list HistoryRow) : list string :=
  js_sort (compareColumns localeCompare preferred) (seen_keys rows).

(* ------------------------------------------------------------------ *)
(** ** The export route ([route.ts]) *)

(** [collectColumns(rows)]: the field names in the order they are first
    met. *)
Definition collectColumns (rows : list HistoryRow) : list string :=
  fold_left (fun columnSet row => fold_left set_add (Object_keys row) columnSet)
            rows [].

(** [str.replace] of every double quote by two of them (global regex). *)
Fixpoint replace_quotes (str : string) : string :=
  match str with
  | EmptyString => EmptyString
  | String c rest =>
      if Ascii.eqb c DQUOTE then String DQUOTE (String DQUOTE (replace_quotes rest))
      else String c (replace_quotes rest)
  end.

(** The regex test of [escapeCsvValue]: does [str] hold a double quote, a
    comma or a line feed? *)
Fixpoint test_special (str : string) : bool :=
  match str with
  | EmptyString => false
  | String c rest =>
      Ascii.eqb c DQUOTE || Ascii.eqb c COMMA || Ascii.eqb c LF || test_special rest
  end.

Definition escapeCsvValue (value : JsValue) : string :=
  match value with
  | JNull | JUndefined => ""
  | JDate t => toISOString t
  | JString _ | JBool _ | JInt _ | JObject _ =>
      let str := js_String value in
      let escaped := replace_quotes str in
      if test_special str then str1 DQUOTE +++ escaped +++ str1 DQUOTE else escaped
  end.

Definition toCsv (rows : list HistoryRow) : string :=
  match rows with
  | [] => ""
  | _ :: _ =>
      let columns := collectColumns rows in
      let header := join "," columns in
      let lines :=
        map (fun row => join "," (map (fun column => escapeCsvValue (row_get row column)) columns))
            rows in
      join CRLF (header :: lines)
  end.

(** What the store answers to a query: [{ data, error }]. *)
Record QueryResult : Type := {
  data : option (list HistoryRow);
  error : option string
}.

(** A read of [history_log]: the bounds put on the timestamp column, the
    newest first. *)
Record Query : Type := {
  q_column : string;
  q_gte : option Z;
  q_lte : option Z
}.

Inductive Response : Type :=
| CsvResponse (body : string)
| JsonResponse (status : Z) (message : string).

Definition TIMESTAMP_COLUMN : string := "created_at".

(** [parseDateParam(value, boundary)]: [inl] is the thrown [Error]'s
    message. *)
Definition parseDateParam (parseISO : string -> option Z) (tz : Z)
  (value : option string) (is_start : bool) : string + option Z :=
  match value with
  | None => inr None
  | Some "" => inr None
  | Some v =>
      match parseISO v with
      | None =>
          inl ("Invalid " +++ (if is_start then "start" else "end")
               +++ " date. Expected ISO format.")
      | Some parsed =>
          inr (Some (if is_start then startOfDay tz parsed else endOfDay tz parsed))
      end
  end.

(** [GET(request)] of the export route, given the two search parameters
    and the store.  The result carries the reads issued to the store. *)
Definition GET (parseISO : string -> option Z) (tz : Z)
  (store : Query -> QueryResult)
  (startParam endParam : option string) : Response * list Query :=
  match parseDateParam parseISO tz startParam true with
  | inl message => (JsonResponse 400 message, [])
  | inr startDate =>
      match parseDateParam parseISO tz endParam false with
      | inl message => (JsonResponse 400 message, [])
      | inr endDate =>
          let query := {| q_column := TIMESTAMP_COLUMN; q_gte := startDate; q_lte := endDate |} in
          let result := store query in
          match error result with
          | Some message => (JsonResponse 500 message, [query])
          | None =>
              let rows := match data result with Some d => d | None => [] end in
              let csv := match rows with [] => "" | _ :: _ => toCsv rows end in
              (CsvResponse csv, [query])
          end
      end
  end.

(* ------------------------------------------------------------------ *)
(** ** The log viewer's fetch and export ([HistoryLogViewer.tsx]) *)

(** The viewer's React state. *)
Record ViewerState : Type := {
  v_rows : list HistoryRow;
  v_loading : bool;
  v_error : option string;
  v_exporting : bool
}.

Definition INVALID_RANGE : string := "Rentang tanggal tidak valid.".

Definition normaliseDateInput (parseISO : string -> option Z) (value : string)
  : option Z :=
  match value with
  | "" => None
  | _ => parseISO value
  end.

(** [start && end && start > end]. *)
Definition range_reversed (start end_ : option Z) : bool :=
  match start, end_ with
  | Some s, Some e => s >? e
  | _, _ => false
  end.

(** The effect's [load()], run to its end: the state it leaves and the
    reads it issued to the store.  [cancelled] is the flag read after the
    await. *)
Definition load (parseISO : string -> option Z) (tz : Z)
  (store : Query -> QueryResult) (cancelled : bool)
  (startDate endDate : string) (st : ViewerState) : ViewerState * list Query :=
  let st1 := {| v_rows := v_rows st; v_loading := true; v_error := None;
                v_exporting := v_exporting st |} in
  let start := normaliseDateInput parseISO startDate in
  let end_ := normaliseDateInput parseISO endDate in
  if range_reversed start end_ then
    ({| v_rows := []; v_loading := false; v_error := Some INVALID_RANGE;
        v_exporting := v_exporting st1 |}, [])
  else
    let query := {| q_column := "created_at";
                    q_gte := option_map (startOfDay tz) start;
                    q_lte := option_map (endOfDay tz) end_ |} in
    let result := store query in
    if cancelled then (st1, [query])
    else
      match error result with
      | Some message =>
          ({| v_rows := []; v_loading := false; v_error := Some message;
              v_exporting := v_exporting st1 |}, [query])
      | None =>
          ({| v_rows := match data result with Some d => d | None => [] end;
              v_loading := false; v_error := v_error st1;
              v_exporting := v_exporting st1 |}, [query])
      end.

(** [if (startDate) params.set('start', startDate)]. *)
Definition search_param (value : string) : option string :=
  match value with
  | "" => None
  | _ => Some value
  end.

(** [handleExport()], run to its end: the state it leaves and the requests
    it sent to the export endpoint, each given by its two search
    parameters.  [fetch_ok] is [response.ok] of the endpoint's answer. *)
Definition handleExport (parseISO : string -> option Z)
  (fetch_ok : option string -> option string -> bool)
  (startDate endDate : string) (st : ViewerState)
  : ViewerState * list (option string * option string) :=
  let start := normaliseDateInput parseISO startDate in
  let end_ := normaliseDateInput parseISO endDate in
  if range_reversed start end_ then
    ({| v_rows := v_rows st; v_loading := v_loading st;
        v_error := Some INVALID_RANGE; v_exporting := false |}, [])
  else
    let request := (search_param startDate, search_param endDate) in
    if fetch_ok (fst request) (snd request) then
      ({| v_rows := v_rows st; v_loading := v_loading st;
          v_error := None; v_exporting := false |}, [request])
    else
      ({| v_rows := v_rows st; v_loading := v_loading st;
          v_error := Some "Gagal membuat CSV."; v_exporting := false |}, [request]).

(* ------------------------------------------------------------------ *)
(** ** The dashboards' rows ([part_001]) *)

(** [type FieldKey]. *)
Inductive FieldKey : Type :=
| daily_key | wtp_key | sdn_outskirts_key | sdn_core_key | golden_goose_key.

Definition FieldKey_eqb (a b : FieldKey) : bool :=
  match a, b with
  | daily_key, daily_key | wtp_key, wtp_key
  | sdn_outskirts_key, sdn_outskirts_key | sdn_core_key, sdn_core_key
  | golden_goose_key, golden_goose_key => true
  | _, _ => false
  end.

(** [type RowState]; the labels are strings at run time in both
    dashboards. *)
Record RowState : Type := {
  characterId : string;
  name : string;
  daily : string;
  wtp : string;
  sdn_outskirts : string;
  sdn_core : string;
  golden_goose : string;
  golden_started_at : option Z;
  isSaving : bool;
  lastError : option string
}.

(** [row[field]]. *)
Definition get_field (row : RowState) (field : FieldKey) : string :=
  match field with
  | daily_key => daily row
  | wtp_key => wtp row
  | sdn_outskirts_key => sdn_outskirts row
  | sdn_core_key => sdn_core row
  | golden_goose_key => golden_goose row
  end.

(** [{ ...row, [field]: value }]. *)
Definition set_field (row : RowState) (field : FieldKey) (value : string) : RowState :=
  {| characterId := characterId row;
     name := name row;
     daily := if FieldKey_eqb field daily_key then value else daily row;
     wtp := if FieldKey_eqb field wtp_key then value else wtp row;
     sdn_outskirts := if FieldKey_eqb field sdn_outskirts_key then value else sdn_outskirts row;
     sdn_core := if FieldKey_eqb field sdn_core_key then value else sdn_core row;
     golden_goose := if FieldKey_eqb field golden_goose_key then value else golden_goose row;
     golden_started_at := golden_started_at row;
     isSaving := isSaving row;
     lastError := lastError row |}.

(** [{ ...row, golden_started_at, isSaving, lastError }]. *)
Definition set_status (row : RowState) (started : option Z) (saving : bool)
  (err : option string) : RowState :=
  {| characterId := characterId row;
     name := name row;
     daily := daily row;
     wtp := wtp row;
     sdn_outskirts := sdn_outskirts row;
     sdn_core := sdn_core row;
     golden_goose := golden_goose row;
     golden_started_at := started;
     isSaving := saving;
     lastError := err |}.

(** [rows.find(row => row.characterId === characterId)]. *)
Definition find_row (rows : list RowState) (id : string) : option RowState :=
  find (fun row => String.eqb (characterId row) id) rows.

(** [prev.map(row => row.characterId === characterId ? f(row) : row)]. *)
Definition map_row (id : string) (f : RowState -> RowState) (prev : list RowState)
  : list RowState :=
  map (fun row => if String.eqb (characterId row) id then f row else row) prev.

(* ------------------------------------------------------------------ *)
(** ** The dashboard with [handleValueChange] ([part_001], lines 593-854)

    An invocation of [handleValueChange] runs in two turns of the event
    loop: up to the [await] of the upsert, and after it.  What it reads
    from its closure ([rows], as rendered) and what it holds across the
    await are explicit; every [setRows(prev => ...)] is a function of the
    state current when React applies it. *)

Module EditDashboard.

Record Payload : Type := {
  character_id : string;
  updated_at : Z;
  p_daily : string;
  p_wtp : string;
  p_sdn_outskirts : string;
  p_sdn_core : string;
  p_golden_goose : string;
  p_golden_started_at : option Z
}.

(** The locals of one invocation that live across its await. *)
Record Edit : Type := {
  e_characterId : string;
  e_field : FieldKey;
  e_value : string;
  previousValue : string;
  previousGoldenStartedAt : option Z;
  nextGoldenStartedAt : option Z;
  payload : Payload
}.

Record Dashboard : Type := {
  rows : list RowState;
  feedback : option string
}.

(** Lines 715-717; [now] is the instant [new Date()] returns. *)
Definition computeNextGoldenStartedAt (targetRow : RowState) (field : FieldKey)
  (value : string) (now : Z) : option Z :=
  if FieldKey_eqb field golden_goose_key
  then (if String.eqb value "Active" then Some now else None)
  else golden_started_at targetRow.

(** [payload[key] = key === field ? value : targetRow[key]]. *)
Definition payload_field (targetRow : RowState) (field : FieldKey) (value : string)
  (key : FieldKey) : string :=
  if FieldKey_eqb key field then value else get_field targetRow key.

(** Lines 708-717 and 734-743: [None] when [rows.find] finds no row and
    the handler returns at once. *)
Definition snapshot (rendered : list RowState) (now now' : Z)
  (characterId : string) (field : FieldKey) (value : string) : option Edit :=
  match find_row rendered characterId with
  | None => None
  | Some targetRow =>
      let next := computeNextGoldenStartedAt targetRow field value now in
      Some {| e_characterId := characterId;
              e_field := field;
              e_value := value;
              previousValue := get_field targetRow field;
              previousGoldenStartedAt := golden_started_at targetRow;
              nextGoldenStartedAt := next;
              payload :=
                {| character_id := characterId;
                   updated_at := now';
                   p_daily := payload_field targetRow field value daily_key;
                   p_wtp := payload_field targetRow field value wtp_key;
                   p_sdn_outskirts := payload_field targetRow field value sdn_outskirts_key;
                   p_sdn_core := payload_field targetRow field value sdn_core_key;
                   p_golden_goose := payload_field targetRow field value golden_goose_key;
                   p_golden_started_at := next |} |}
  end.

(** Lines 719-732: the optimistic update. *)
Definition optimistic (e : Edit) (st : Dashboard) : Dashboard :=
  {| rows :=
       map_row (e_characterId e)
         (fun row => set_status (set_field row (e_field e) (e_value e))
                                (nextGoldenStartedAt e) true None)
         (rows st);
     feedback := None |}.

(** Lines 749-766: the upsert answered with an error of message
    [message]. *)
Definition on_failure (e : Edit) (message : string) (st : Dashboard) : Dashboard :=
  {| rows :=
       map_row (e_characterId e)
         (fun row => set_status (set_field row (e_field e) (previousValue e))
                                (previousGoldenStartedAt e) false (Some message))
         (rows st);
     feedback := Some "Gagal menyimpan perubahan. Coba lagi." |}.

(** Lines 768-780: the upsert succeeded. *)
Definition on_success (e : Edit) (st : Dashboard) : Dashboard :=
  {| rows :=
       map_row (e_characterId e)
         (fun row => set_status row (nextGoldenStartedAt e) false None)
         (rows st);
     feedback := Some "Perubahan tersimpan!" |}.

(** The part after the await; [response] is the [error] of the upsert's
    answer, given by its message. *)
Definition settle (e : Edit) (response : option string) (st : Dashboard) : Dashboard :=
  match response with
  | Some message => on_failure e message st
  | None => on_success e st
  end.

(** One whole invocation with nothing else in between: the handler of the
    current render is called, and its upsert is answered. *)
Definition handleValueChange (st : Dashboard) (now now' : Z)
  (characterId : string) (field : FieldKey) (value : string)
  (response : option string) : Dashboard :=
  match snapshot (rows st) now now' characterId field value with
  | None => st
  | Some e => settle e response (optimistic e st)
  end.

(** Lines 809-811: the expiry cell, [now] being [new Date()] at render. *)
Definition isExpired (row : RowState) (now : Z) : bool :=
  match golden_started_at row with
  | Some goldenStarted => isAfter now (addDays goldenStarted 7)
  | None => false
  end.

End EditDashboard.

(* ------------------------------------------------------------------ *)
(** ** The dashboard with [upsertFor] ([part_001], lines 1-378) *)

Module UpsertDashboard.

(** [Partial<RowState>], for the fields the handlers patch. *)
Record Patch : Type := {
  patch_daily : option string;
  patch_wtp : option string;
  patch_sdn_outskirts : option string;
  patch_sdn_core : option string;
  patch_golden_goose : option string;
  patch_golden_started_at : option (option Z)
}.

Definition or_else {A : Type} (o : option A) (d : A) : A :=
  match o with Some x => x | None => d end.

(** [{ ...row, ...patch }]. *)
Definition apply_patch (row : RowState) (patch : Patch) : RowState :=
  {| characterId := characterId row;
     name := name row;
     daily := or_else (patch_daily patch) (daily row);
     wtp := or_else (patch_wtp patch) (wtp row);
     sdn_outskirts := or_else (patch_sdn_outskirts patch) (sdn_outskirts row);
     sdn_core := or_else (patch_sdn_core patch) (sdn_core row);
     golden_goose := or_else (patch_golden_goose patch) (golden_goose row);
     golden_started_at := or_else (patch_golden_started_at patch) (golden_started_at row);
     isSaving := isSaving row;
     lastError := lastError row |}.

Definition no_patch : Patch :=
  {| patch_daily := None; patch_wtp := None; patch_sdn_outskirts := None;
     patch_sdn_core := None; patch_golden_goose := None;
     patch_golden_started_at := None |}.

(** The patch each select's [onChange] passes to [upsertFor]
    (lines 282-356); [now] is [new Date()] in the Golden Goose handler. *)
Definition patch_of_change (field : FieldKey) (value : string) (now : Z) : Patch :=
  match field with
  | daily_key =>
      {| patch_daily := Some value; patch_wtp := None; patch_sdn_outskirts := None;
         patch_sdn_core := None; patch_golden_goose := None;
         patch_golden_started_at := None |}
  | wtp_key =>
      {| patch_daily := None; patch_wtp := Some value; patch_sdn_outskirts := None;
         patch_sdn_core := None; patch_golden_goose := None;
         patch_golden_started_at := None |}
  | sdn_outskirts_key =>
      {| patch_daily := None; patch_wtp := None; patch_sdn_outskirts := Some value;
         patch_sdn_core := None; patch_golden_goose := None;
         patch_golden_started_at := None |}
  | sdn_core_key =>
      {| patch_daily := None; patch_wtp := None; patch_sdn_outskirts := None;
         patch_sdn_core := Some value; patch_golden_goose := None;
         patch_golden_started_at := None |}
  | golden_goose_key =>
      {| patch_daily := None; patch_wtp := None; patch_sdn_outskirts := None;
         patch_sdn_core := None; patch_golden_goose := Some value;
         patch_golden_started_at :=
           Some (if String.eqb value "Active" then Some now else None) |}
  end.

(** [goldenLabelToDb]. *)
Definition goldenLabelToDb (label : string) : bool := String.eqb label "Active".

(** [payload.golden_started_at] (lines 186-188); [now'] is [new Date()]
    there. *)
Definition payload_golden_started_at (next : RowState) (now' : Z) : option Z :=
  if goldenLabelToDb (golden_goose next)
  then Some (or_else (golden_started_at next) now')
  else None.

(** What the [catch] of [upsertFor] receives. *)
Inductive Thrown : Type :=
| ThrownError (message : string)
| ThrownOther.

(** [error instanceof Error ? error.message : 'Failed to save']. *)
Definition thrown_message (t : Thrown) : string :=
  match t with
  | ThrownError message => message
  | ThrownOther => "Failed to save"
  end.

(** Lines 156-167: the optimistic update. *)
Definition optimistic (characterId : string) (patch : Patch) (prev : list RowState)
  : list RowState :=
  map_row characterId
    (fun row => set_status (apply_patch row patch)
                  (golden_started_at (apply_patch row patch)) true None)
    prev.

(** Lines 199-210. *)
Definition on_success (characterId : string) (next : RowState) (now' : Z)
  (prev : list RowState) : list RowState :=
  map_row characterId
    (fun _ => set_status next (payload_golden_started_at next now') false None)
    prev.

(** Lines 211-224: the [catch]. *)
Definition on_catch (characterId : string) (t : Thrown) (prev : list RowState)
  : list RowState :=
  map_row characterId
    (fun row => set_status row (golden_started_at row) false (Some (thrown_message t)))
    prev.

(** [upsertFor(characterId, patch)] run to its end with nothing else in
    between.  [rendered] is the [rows] of the handler's closure, [prev] the
    state React holds, [response] the [error] the upsert answers with. *)
Definition upsertFor (rendered prev : list RowState) (now' : Z)
  (characterId : string) (patch : Patch) (response : option Thrown)
  : list RowState :=
  let st := optimistic characterId patch prev in
  match find_row rendered characterId with
  | None => on_catch characterId (ThrownError "Row not found") st
  | Some baseRow =>
      let next := apply_patch baseRow patch in
      match response with
      | Some t => on_catch characterId t st
      | None => on_success characterId next now' st
      end
  end.

(** [disabled={row.isSaving}] on each select of the row (lines 285-357):
    a saving row takes no further edit. *)
Definition select_disabled (row : RowState) : bool := isSaving row.

(** Lines 257-260: the expiry cell, [now] being [new Date()] at render. *)
Definition isExpired (tz : Z) (row : RowState) (now : Z) : bool :=
  match golden_started_at row with
  | Some startedAt =>
      differenceInCalendarDays tz (addDays startedAt 7) now <? 0
  | None => false
  end.

End UpsertDashboard.

(* ================================================================== *)
(** * Part II.  Reference definitions the claims are stated with *)

(** The text a cell stands for in the export: empty for an absent or null
    value, the ISO text of a [Date], [String(value)] otherwise. *)
Definition cell_text (value : JsValue) : string :=
  match value with
  | JNull | JUndefined => ""
  | _ => js_String value
  end.

(** [c] occurs in [s]. *)
Fixpoint occurs (c : ascii) (s : string) : Prop :=
  match s with
  | EmptyString => False
  | String c' rest => c' = c \/ occurs c rest
  end.

(** The text holds a comma, a double quote or a line feed. *)
Definition has_special (s : string) : Prop :=
  occurs COMMA s \/ occurs DQUOTE s \/ occurs LF s.

(** The text with every double quote written twice. *)
Definition doubled_quotes (s : string) : string :=
  string_of_list_ascii
    (flat_map (fun c => if Ascii.eqb c DQUOTE then [DQUOTE; DQUOTE] else [c])
              (list_ascii_of_string s)).

(** The field names of a row set: those of some row. *)
Definition is_field_name (rows : list HistoryRow) (c : string) : Prop :=
  exists row, In row rows /\ In c (Object_keys row).

(** ** A reader of RFC 4180 documents

    Records end at a line break (CRLF; a lone LF or CR is taken as one
    too), fields at a comma; a field that starts with a double quote runs
    to its closing quote, a doubled quote inside standing for one.  As the
    RFC has it, the last record may or may not be followed by a line break:
    a line break at the very end starts no further record. *)

Inductive ReaderState : Type :=
| FieldStart
| Unquoted
| Quoted
| QuoteInQuoted.

Fixpoint read_csv (s : string) (st : ReaderState) (field : string)
  (record : list string) {struct s} : list (list string) :=
  match s with
  | EmptyString =>
      match st, field, record with
      | FieldStart, EmptyString, [] => []
      | _, _, _ => [record ++ [field]]
      end
  | String c rest =>
      match st with
      | Quoted =>
          if Ascii.eqb c DQUOTE then read_csv rest QuoteInQuoted field record
          else read_csv rest Quoted (field +++ str1 c) record
      | _ =>
          if Ascii.eqb c DQUOTE then
            match st with
            | FieldStart => read_csv rest Quoted field record
            | QuoteInQuoted => read_csv rest Quoted (field +++ str1 c) record
            | _ => read_csv rest Unquoted (field +++ str1 c) record
            end
          else if Ascii.eqb c COMMA then
            read_csv rest FieldStart "" (record ++ [field])
          else if Ascii.eqb c LF then
            (record ++ [field]) :: read_csv rest FieldStart "" []
          else if Ascii.eqb c CR then
            (record ++ [field]) ::
            match rest with
            | String c' rest' =>
                if Ascii.eqb c' LF then read_csv rest' FieldStart "" []
                else read_csv rest FieldStart "" []
            | EmptyString => read_csv rest FieldStart "" []
            end
          else read_csv rest Unquoted (field +++ str1 c) record
      end
  end.

Definition parse_csv (document : string) : list (list string) :=
  read_csv document FieldStart "" [].

(** The value a row itself holds under [column]; absent when it holds
    none, whatever it inherits. *)
Definition own_value (row : HistoryRow) (column : string) : JsValue :=
  match own_property row column with
  | Some v => v
  | None => JUndefined
  end.

(** A name under which every row finds something it does not hold
    itself. *)
Definition inherited (column : string) : Prop := Object_prototype column <> JUndefined.

(** The table a row set stands for: its column names, then every row's
    cell texts under those columns, from the values the row holds. *)
Definition table_of (rows : list HistoryRow) : list (list string) :=
  let columns := collectColumns rows in
  columns :: map (fun row => map (fun column => cell_text (own_value row column)) columns) rows.

(** No comma, double quote, line feed or carriage return. *)
Definition plain (s : string) : Prop :=
  ~ occurs COMMA s /\ ~ occurs DQUOTE s /\ ~ occurs LF s /\ ~ occurs CR s.

Definition plain_char (c : ascii) : Prop :=
  c <> COMMA /\ c <> DQUOTE /\ c <> LF /\ c <> CR.

(** The line [toCsv] writes for [row]. *)
Definition csv_line (columns : list string) (row : HistoryRow) : string :=
  join "," (map (fun column => escapeCsvValue (row_get row column)) columns).

(** ** Comparators

    [cmp a b <= 0]: [a] may stand before [b]. *)
Definition cmp_le {A : Type} (cmp : A -> A -> Z) (a b : A) : Prop := cmp a b <= 0.

(** The laws of a consistent comparator, asked of the elements that are
    sorted only. *)
Definition total_on {A : Type} (cmp : A -> A -> Z) (P : A -> Prop) : Prop :=
  forall a b, P a -> P b -> cmp_le cmp a b \/ cmp_le cmp b a.

Definition trans_on {A : Type} (cmp : A -> A -> Z) (P : A -> Prop) : Prop :=
  forall a b c, P a -> P b -> P c ->
    cmp_le cmp a b -> cmp_le cmp b c -> cmp_le cmp a c.

(** [c] is on the preference list. *)
Definition is_preferred (preferred : list string) (c : string) : bool :=
  negb (indexOf preferred c =? -1).

(** The list with its first occurrences only. *)
Fixpoint first_seen (l : list string) : list string :=
  match l with
  | [] => []
  | x :: l' => x :: filter (fun y => negb (String.eqb y x)) (first_seen l')
  end.

(** ** Two comparators that meet the requirements on [localeCompare]

    [compare_bytes] orders strings by their bytes.  [compare_canonical]
    does so up to one canonical equivalence of Unicode: the letter e
    followed by the combining acute accent U+0301 (bytes 204 129) is the
    same text as the precomposed letter U+00E9 (bytes 195 169).  ECMA-262
    requires [localeCompare] to return 0 on canonically equivalent
    strings, also when they are different strings. *)

Definition compare_bytes (a b : string) : Z :=
  match String.compare a b with
  | Lt => -1
  | Eq => 0
  | Gt => 1
  end.

Fixpoint compose_acute (s : string) : string :=
  match s with
  | EmptyString => EmptyString
  | String c rest =>
      match rest with
      | String c1 (String c2 rest') =>
          if (Ascii.eqb c "e" && Ascii.eqb c1 "204" && Ascii.eqb c2 "129")%bool
          then String "195" (String "169" (compose_acute rest'))
          else String c (compose_acute rest)
      | _ => String c (compose_acute rest)
      end
  end.

Definition compare_canonical (a b : string) : Z :=
  compare_bytes (compose_acute a) (compose_acute b).

(** The two spellings of the name [cafe] with an acute accent. *)
Definition cafe_precomposed : string :=
  "caf" +++ String "195" (String "169" EmptyString).

Definition cafe_decomposed : string :=
  "cafe" +++ String "204" (String "129" EmptyString).

(** ** Sample inputs *)

Definition sample_rows : list HistoryRow :=
  [ [("notes", JString "met the guild"); ("zeta", JNull); ("created_at", JString "2024-05-01")];
    [("created_at", JNull); ("n", JInt 12); ("b", JBool true); ("action", JNull)] ].

Definition sample_rows_swapped : list HistoryRow :=
  [ [("created_at", JNull); ("n", JInt 12); ("b", JBool true); ("action", JNull)];
    [("notes", JString "met the guild"); ("zeta", JNull); ("created_at", JString "2024-05-01")] ].

(** Two rows whose only field names are the two spellings of one word. *)
Definition accent_rows : list HistoryRow :=
  [ [(cafe_precomposed, JInt 1)]; [(cafe_decomposed, JInt 2)] ].

Definition accent_rows_swapped : list HistoryRow :=
  [ [(cafe_decomposed, JInt 2)]; [(cafe_precomposed, JInt 1)] ].

(** The viewer before any fetch. *)
Definition idle_viewer : ViewerState :=
  {| v_rows := []; v_loading := false; v_error := None; v_exporting := false |}.

(** The application's zone: WIB, seven hours ahead of UTC. *)
Definition WIB : Z := 7 * 3600000.

(** A store that holds no row in any range. *)
Definition empty_store (q : Query) : QueryResult :=
  {| data := Some []; error := None |}.

(** The read the export route issues for two bounds. *)
Definition export_query (startDate endDate : option Z) : Query :=
  {| q_column := TIMESTAMP_COLUMN; q_gte := startDate; q_lte := endDate |}.

(** A character's row as [getInitialRows] builds it from no stored
    state. *)
Definition default_row (id nm : string) : RowState :=
  {| characterId := id; name := nm;
     daily := "Not Started"; wtp := "Locked";
     sdn_outskirts := "Not Started"; sdn_core := "Not Started";
     golden_goose := "Inactive"; golden_started_at := None;
     isSaving := false; lastError := None |}.

Definition sample_dashboard : EditDashboard.Dashboard :=
  {| EditDashboard.rows := [default_row "c1" "Lancea"; default_row "c2" "Machina"];
     EditDashboard.feedback := None |}.

(** 2024-05-01T05:00:00.000Z, noon in WIB. *)
Definition noon_1_May_2024 : Z := 1714539600000.

(** ** Two edits of one row in flight at once ([handleValueChange])

    Edit A is issued; React re-renders with A's optimistic values; edit B
    is issued from that render; then A's upsert fails with [message] and
    B's succeeds, the answers arriving in either order ([a_first]).
    [None] when a handler finds no row. *)
Definition two_edits (st0 : EditDashboard.Dashboard) (characterId : string)
  (fieldA : FieldKey) (valueA : string) (nowA nowA' : Z)
  (fieldB : FieldKey) (valueB : string) (nowB nowB' : Z)
  (message : string) (a_first : bool) : option EditDashboard.Dashboard :=
  match EditDashboard.snapshot (EditDashboard.rows st0) nowA nowA'
          characterId fieldA valueA with
  | None => None
  | Some editA =>
      let st1 := EditDashboard.optimistic editA st0 in
      match EditDashboard.snapshot (EditDashboard.rows st1) nowB nowB'
              characterId fieldB valueB with
      | None => None
      | Some editB =>
          let st2 := EditDashboard.optimistic editB st1 in
          Some (if a_first
                then EditDashboard.settle editB None
                       (EditDashboard.settle editA (Some message) st2)
                else EditDashboard.settle editA (Some message)
                       (EditDashboard.settle editB None st2))
      end
  end.

(* ================================================================== *)
(** * Part III.  Facts about the built-ins *)

Section JsSortFacts.
Context {A : Type}.
Variable cmp : A -> A -> Z.

Lemma sort_insert_perm x l : Permutation (x :: l) (sort_insert cmp x l).
Proof.
  induction l as [|y l IH]; simpl; [reflexivity|].
  destruct (cmp x y <=? 0); [reflexivity|].
  rewrite perm_swap. now apply perm_skip.
Qed.

Lemma js_sort_perm l : Permutation l (js_sort cmp l).
Proof.
  induction l as [|x l IH]; simpl; [constructor|].
  rewrite <- sort_insert_perm. now apply perm_skip.
Qed.

Lemma js_sort_In x l : In x (js_sort cmp l) <-> In x l.
Proof.
  split; intro H.
  - eapply Permutation_in; [symmetry; apply js_sort_perm | exact H].
  - eapply Permutation_in; [apply js_sort_perm | exact H].
Qed.

Lemma sort_insert_sorted (P : A -> Prop) x l :
  total_on cmp P -> trans_on cmp P -> P x -> Forall P l ->
  StronglySorted (cmp_le cmp) l -> StronglySorted (cmp_le cmp) (sort_insert cmp x l).
Proof.
  intros Htot Htr Px HP Hs.
  induction Hs as [|y l Hs IH Hy]; simpl.
  - repeat constructor.
  - inversion HP as [|? ? Py HPl]; subst.
    destruct (cmp x y <=? 0) eqn:E.
    + apply Z.leb_le in E. constructor; [constructor; assumption|].
      constructor; [exact E|].
      rewrite Forall_forall in Hy, HPl |- *. intros z Hz.
      apply (Htr x y z); auto.
    + apply Z.leb_gt in E. constructor; [now apply IH|].
      assert (Hyx : cmp_le cmp y x).
      { destruct (Htot x y Px Py) as [H|H]; [unfold cmp_le in H; lia | exact H]. }
      rewrite Forall_forall in Hy |- *. intros z Hz.
      apply (Permutation_in _ (Permutation_sym (sort_insert_perm x l))) in Hz.
      destruct Hz as [->|Hz]; auto.
Qed.

Lemma js_sort_sorted (P : A -> Prop) l :
  total_on cmp P -> trans_on cmp P -> Forall P l -> StronglySorted (cmp_le cmp) (js_sort cmp l).
Proof.
  intros Htot Htr HP. induction HP as [|x l Px HP IH]; simpl; [constructor|].
  apply (sort_insert_sorted P); auto.
  rewrite Forall_forall in HP |- *. intros z Hz. apply HP.
  now apply js_sort_In.
Qed.

(** Two sorted arrangements of the same elements coincide as soon as the
    comparator separates distinct elements. *)
Lemma sorted_perm_eq (l1 l2 : list A) :
  StronglySorted (cmp_le cmp) l1 -> StronglySorted (cmp_le cmp) l2 ->
  Permutation l1 l2 ->
  (forall a b, In a l1 -> In b l1 -> cmp_le cmp a b -> cmp_le cmp b a -> a = b) ->
  l1 = l2.
Proof.
  intros H1. revert l2.
  induction H1 as [|a l1 H1 IH Ha]; intros l2 H2 Hp Hanti.
  - now apply Permutation_nil in Hp.
  - destruct l2 as [|b l2].
    { symmetry in Hp. now apply Permutation_nil in Hp. }
    inversion H2 as [|? ? H2' Hb]; subst.
    assert (Hab : a = b).
    { assert (Ia : In a (b :: l2)) by (eapply Permutation_in; [exact Hp | now left]).
      assert (Ib : In b (a :: l1))
        by (eapply Permutation_in; [symmetry; exact Hp | now left]).
      destruct Ia as [E|Ia]; [now symmetry|].
      destruct Ib as [E|Ib]; [exact E|].
      rewrite Forall_forall in Ha, Hb.
      apply Hanti; [now left | now right | now apply Ha | now apply Hb]. }
    subst b. f_equal.
    apply IH; [exact H2' | now apply Permutation_cons_inv in Hp |].
    intros x y Hx Hy. apply Hanti; now right.
Qed.

Lemma sort_insert_least x l :
  Forall (cmp_le cmp x) l -> sort_insert cmp x l = x :: l.
Proof.
  intros H. destruct l as [|y l]; [reflexivity|]. simpl.
  inversion H as [|? ? Hxy _]; subst.
  unfold cmp_le in Hxy. apply Z.leb_le in Hxy. now rewrite Hxy.
Qed.

(** Filtering commutes with the stable sort. *)
Lemma filter_sort_insert (P : A -> Prop) (f : A -> bool) x l :
  trans_on cmp P -> P x -> Forall P l -> StronglySorted (cmp_le cmp) l ->
  filter f (sort_insert cmp x l) =
  if f x then sort_insert cmp x (filter f l) else filter f l.
Proof.
  intros Htr Px HP Hs. induction Hs as [|y l Hs IH Hy]; simpl.
  - now destruct (f x).
  - inversion HP as [|? ? Py HPl]; subst.
    destruct (cmp x y <=? 0) eqn:E; simpl.
    + destruct (f x) eqn:Fx; [|reflexivity].
      destruct (f y) eqn:Fy; simpl; [now rewrite E|].
      symmetry. apply sort_insert_least.
      apply Z.leb_le in E.
      rewrite Forall_forall in Hy, HPl |- *. intros z Hz.
      apply filter_In in Hz. destruct Hz as [Hz _].
      apply (Htr x y z); auto.
    + rewrite (IH HPl).
      destruct (f y) eqn:Fy; destruct (f x) eqn:Fx; simpl; try reflexivity.
      now rewrite E.
Qed.

Lemma filter_js_sort (P : A -> Prop) (f : A -> bool) l :
  total_on cmp P -> trans_on cmp P -> Forall P l ->
  filter f (js_sort cmp l) = js_sort cmp (filter f l).
Proof.
  intros Htot Htr HP. induction HP as [|x l Px HP IH]; simpl; [reflexivity|].
  rewrite (filter_sort_insert P); auto.
  - rewrite IH. now destruct (f x).
  - rewrite Forall_forall in HP |- *. intros z Hz. apply HP. now apply js_sort_In.
  - now apply (js_sort_sorted P).
Qed.

End JsSortFacts.

(* ------------------------------------------------------------------ *)
(** ** Sets of field names *)

Lemma set_has_In s k : set_has s k = true <-> In k s.
Proof.
  unfold set_has. rewrite existsb_exists. split.
  - intros [x [Hx E]]. apply String.eqb_eq in E. now subst.
  - intros H. exists k. split; [exact H | apply String.eqb_refl].
Qed.

Lemma set_has_false s k : set_has s k = false <-> ~ In k s.
Proof.
  rewrite <- set_has_In. destruct (set_has s k); split; intro H; congruence.
Qed.

Lemma set_add_In s k x : In x (set_add s k) <-> In x s \/ x = k.
Proof.
  unfold set_add. destruct (set_has s k) eqn:E.
  - apply set_has_In in E. split; [now left | intros [H| ->]; assumption].
  - rewrite in_app_iff. simpl. intuition.
Qed.

Lemma set_add_NoDup s k : NoDup s -> NoDup (set_add s k).
Proof.
  intros H. unfold set_add. destruct (set_has s k) eqn:E; [exact H|].
  apply set_has_false in E.
  apply NoDup_rev in H. rewrite <- (rev_involutive (s ++ [k])).
  apply NoDup_rev. rewrite rev_app_distr. simpl.
  constructor; [now rewrite <- in_rev | exact H].
Qed.

Lemma fold_set_add_In ks : forall s x,
  In x (fold_left set_add ks s) <-> In x s \/ In x ks.
Proof.
  induction ks as [|k ks IH]; intros s x; simpl; [tauto|].
  rewrite IH, set_add_In. intuition.
Qed.

Lemma fold_set_add_NoDup ks : forall s, NoDup s -> NoDup (fold_left set_add ks s).
Proof.
  induction ks as [|k ks IH]; intros s H; simpl; [exact H|].
  apply IH. now apply set_add_NoDup.
Qed.

(** The guard [if (!seen.has(key))] of [orderColumns] changes nothing:
    [Set.add] already skips a member. *)
Lemma seen_guard_redundant ks : forall s,
  fold_left (fun seen key => if negb (set_has seen key) then set_add seen key else seen) ks s
  = fold_left set_add ks s.
Proof.
  induction ks as [|k ks IH]; intros s; simpl; [reflexivity|].
  rewrite IH. f_equal. unfold set_add. now destruct (set_has s k).
Qed.

Lemma collect_from_seen rows : forall s,
  fold_left
    (fun seen row =>
       fold_left (fun seen key => if negb (set_has seen key) then set_add seen key else seen)
                 (Object_keys row) seen) rows s
  = fold_left (fun columnSet row => fold_left set_add (Object_keys row) columnSet) rows s.
Proof.
  induction rows as [|row rows IH]; intros s; simpl; [reflexivity|].
  now rewrite seen_guard_redundant, IH.
Qed.

Lemma seen_keys_collectColumns rows : seen_keys rows = collectColumns rows.
Proof. apply collect_from_seen. Qed.

Lemma collect_In rows : forall s x,
  In x (fold_left (fun columnSet row => fold_left set_add (Object_keys row) columnSet) rows s)
  <-> In x s \/ is_field_name rows x.
Proof.
  induction rows as [|row rows IH]; intros s x; simpl.
  - split; [now left | intros [H | [r [[] _]]]; exact H].
  - rewrite IH, fold_set_add_In. unfold is_field_name. split.
    + intros [[H|H]|[r [Hr Hx]]].
      * now left.
      * right. exists row. split; [now left | exact H].
      * right. exists r. split; [now right | exact Hx].
    + intros [H|[r [[->|Hr] Hx]]].
      * left. now left.
      * left. now right.
      * right. now exists r.
Qed.

Lemma collect_NoDup rows : forall s,
  NoDup s ->
  NoDup (fold_left (fun columnSet row => fold_left set_add (Object_keys row) columnSet) rows s).
Proof.
  induction rows as [|row rows IH]; intros s H; simpl; [exact H|].
  apply IH. now apply fold_set_add_NoDup.
Qed.

Lemma collectColumns_In rows x : In x (collectColumns rows) <-> is_field_name rows x.
Proof.
  unfold collectColumns. rewrite collect_In. simpl. tauto.
Qed.

Lemma collectColumns_NoDup rows : NoDup (collectColumns rows).
Proof. apply collect_NoDup. constructor. Qed.

(** Row sets with the same rows have the same field names. *)
Lemma is_field_name_ext rows1 rows2 x :
  (forall row, In row rows1 <-> In row rows2) ->
  is_field_name rows1 x -> is_field_name rows2 x.
Proof. intros H [r [Hr Hx]]. exists r. split; [now apply H | exact Hx]. Qed.

(* ------------------------------------------------------------------ *)
(** ** [indexOf] *)

Lemma indexOf_range l a : -1 <= indexOf l a.
Proof.
  induction l as [|x l IH]; simpl; [lia|].
  destruct (String.eqb x a); [lia|].
  destruct (indexOf l a =? -1); lia.
Qed.

Lemma indexOf_absent l a : indexOf l a = -1 <-> ~ In a l.
Proof.
  induction l as [|x l IH]; simpl; [tauto|].
  destruct (String.eqb x a) eqn:E.
  - apply String.eqb_eq in E. split; [lia | intros H; exfalso; apply H; now left].
  - apply String.eqb_neq in E.
    destruct (indexOf l a =? -1) eqn:E1.
    + apply Z.eqb_eq in E1. split; [|reflexivity].
      intros _ [H|H]; [contradiction | now apply IH].
    + apply Z.eqb_neq in E1. pose proof (indexOf_range l a) as Hr. split; [lia|].
      intros Hn. exfalso. apply E1, IH. tauto.
Qed.

Lemma indexOf_inj l a b :
  indexOf l a <> -1 -> indexOf l a = indexOf l b -> a = b.
Proof.
  induction l as [|x l IH]; simpl; [congruence|].
  pose proof (indexOf_range l a) as Ha. pose proof (indexOf_range l b) as Hb.
  destruct (String.eqb x a) eqn:Ea; destruct (String.eqb x b) eqn:Eb;
    try (apply String.eqb_eq in Ea); try (apply String.eqb_eq in Eb).
  - congruence.
  - destruct (indexOf l b =? -1) eqn:E2; [lia|].
    apply Z.eqb_neq in E2. lia.
  - destruct (indexOf l a =? -1) eqn:E1; [lia|].
    apply Z.eqb_neq in E1. lia.
  - destruct (indexOf l a =? -1) eqn:E1; [congruence|].
    destruct (indexOf l b =? -1) eqn:E2; [apply Z.eqb_neq in E1; lia|].
    apply Z.eqb_neq in E1. intros _ H1. apply IH; lia.
Qed.

Lemma indexOf_app_r l1 l2 a :
  ~ In a l1 -> In a l2 -> indexOf (l1 ++ l2) a = Z.of_nat (length l1) + indexOf l2 a.
Proof.
  intros H1 H2. induction l1 as [|x l1 IH]; cbn [app indexOf length]; [simpl; lia|].
  destruct (String.eqb x a) eqn:E.
  - apply String.eqb_eq in E. exfalso. apply H1. now left.
  - assert (Hn : ~ In a l1) by (intro; apply H1; now right).
    rewrite (IH Hn).
    assert (indexOf l2 a <> -1) by (now rewrite indexOf_absent).
    pose proof (indexOf_range l2 a).
    destruct (Z.of_nat (length l1) + indexOf l2 a =? -1) eqn:E1; [|lia].
    apply Z.eqb_eq in E1. lia.
Qed.

Lemma indexOf_head x l : indexOf (x :: l) x = 0.
Proof. simpl. now rewrite String.eqb_refl. Qed.

Lemma is_preferred_In preferred c : is_preferred preferred c = true <-> In c preferred.
Proof.
  unfold is_preferred. rewrite negb_true_iff, Z.eqb_neq, indexOf_absent.
  split; [|tauto]. intros H. destruct (in_dec string_dec c preferred); tauto.
Qed.

(* ================================================================== *)
(** * Part IV.  The column order *)

Section ColumnOrder.
Variable localeCompare : string -> string -> Z.
Variable preferred : list string.

(** ECMA-262 requires [localeCompare] to be a consistent comparator:
    swapping the arguments swaps the sign, and the order is transitive.
    (It may return 0 on two different strings.) *)
Hypothesis localeCompare_sym :
  forall a b, localeCompare a b < 0 <-> 0 < localeCompare b a.
Hypothesis localeCompare_trans :
  forall a b c, localeCompare a b <= 0 -> localeCompare b c <= 0 -> localeCompare a c <= 0.

Let cmp := compareColumns localeCompare preferred.
Let le := cmp_le cmp.
Let anyName := fun _ : string => True.

Ltac cc_cases a b :=
  unfold le, cmp, cmp_le, compareColumns in *;
  pose proof (indexOf_range preferred a);
  pose proof (indexOf_range preferred b);
  destruct (indexOf preferred a =? -1) eqn:?Ea;
  destruct (indexOf preferred b =? -1) eqn:?Eb;
  simpl in *;
  repeat match goal with
         | E : (_ =? _) = true |- _ => apply Z.eqb_eq in E
         | E : (_ =? _) = false |- _ => apply Z.eqb_neq in E
         end.

Lemma compareColumns_total : total_on cmp anyName.
Proof.
  intros a b _ _. cc_cases a b; try lia.
  destruct (Z_le_gt_dec (localeCompare a b) 0) as [H1|H1]; [now left|].
  right. assert (localeCompare b a < 0) by (apply localeCompare_sym; lia). lia.
Qed.

Lemma compareColumns_trans : trans_on cmp anyName.
Proof.
  intros a b c _ _ _ Hab Hbc.
  unfold le, cmp, cmp_le, compareColumns in *.
  pose proof (indexOf_range preferred a).
  pose proof (indexOf_range preferred b).
  pose proof (indexOf_range preferred c).
  destruct (indexOf preferred a =? -1) eqn:Ea;
  destruct (indexOf preferred b =? -1) eqn:Eb;
  destruct (indexOf preferred c =? -1) eqn:Ec; simpl in *;
  repeat match goal with
         | E : (_ =? _) = true |- _ => apply Z.eqb_eq in E
         | E : (_ =? _) = false |- _ => apply Z.eqb_neq in E
         end; try lia.
  now apply (localeCompare_trans a b c).
Qed.

(** Two names the comparator does not separate are equal, or are two
    names off the preference list on which [localeCompare] returns 0. *)
Lemma compareColumns_tie a b :
  le a b -> le b a ->
  a = b \/ (is_preferred preferred a = false /\ is_preferred preferred b = false
            /\ localeCompare a b = 0).
Proof.
  intros Hab Hba. unfold is_preferred.
  cc_cases a b; try lia.
  - right. repeat split; try (apply Z.eqb_eq in Ea; now rewrite Ea);
      try (apply Z.eqb_eq in Eb; now rewrite Eb).
    destruct (Z_lt_le_dec (localeCompare a b) 0) as [H1|H1]; [|lia].
    apply localeCompare_sym in H1. lia.
  - left. apply (indexOf_inj preferred); lia.
Qed.

Lemma all_names (l : list string) : Forall anyName l.
Proof. apply Forall_forall. intros; exact I. Qed.

Lemma orderColumns_sorted rows :
  StronglySorted le (orderColumns localeCompare preferred rows).
Proof.
  apply (js_sort_sorted cmp anyName);
    [apply compareColumns_total | apply compareColumns_trans | apply all_names].
Qed.

Lemma orderColumns_perm rows :
  Permutation (collectColumns rows) (orderColumns localeCompare preferred rows).
Proof.
  unfold orderColumns. rewrite seen_keys_collectColumns. apply js_sort_perm.
Qed.

Lemma orderColumns_In rows c :
  In c (orderColumns localeCompare preferred rows) <-> is_field_name rows c.
Proof.
  rewrite <- collectColumns_In. split; intro H.
  - eapply Permutation_in; [symmetry; apply orderColumns_perm | exact H].
  - eapply Permutation_in; [apply orderColumns_perm | exact H].
Qed.

Lemma orderColumns_NoDup rows : NoDup (orderColumns localeCompare preferred rows).
Proof.
  eapply Permutation_NoDup; [apply orderColumns_perm | apply collectColumns_NoDup].
Qed.

(** A sorted list is its preferred names followed by the others. *)
Lemma sorted_split l :
  StronglySorted le l ->
  l = filter (is_preferred preferred) l
      ++ filter (fun c => negb (is_preferred preferred c)) l.
Proof.
  induction 1 as [|a l Hs IH Ha]; simpl; [reflexivity|].
  destruct (is_preferred preferred a) eqn:Pa; simpl.
  - now rewrite <- IH.
  - assert (Hnone : forall b, In b l -> is_preferred preferred b = false).
    { rewrite Forall_forall in Ha. intros b Hb. specialize (Ha b Hb).
      unfold is_preferred in *. cc_cases a b; try reflexivity; try discriminate.
      lia. }
    assert (E1 : filter (is_preferred preferred) l = []).
    { clear - Hnone. induction l as [|b l IHl]; simpl; [reflexivity|].
      rewrite (Hnone b (or_introl eq_refl)). apply IHl.
      intros c Hc. apply Hnone. now right. }
    assert (E2 : filter (fun c => negb (is_preferred preferred c)) l = l).
    { clear - Hnone. induction l as [|b l IHl]; simpl; [reflexivity|].
      rewrite (Hnone b (or_introl eq_refl)). simpl. f_equal. apply IHl.
      intros c Hc. apply Hnone. now right. }
    now rewrite E1, E2.
Qed.

Lemma NoDup_app_disjoint {A : Type} (l1 l2 : list A) x :
  NoDup (l1 ++ l2) -> In x l1 -> In x l2 -> False.
Proof.
  induction l1 as [|a l1 IH]; simpl; [tauto|].
  intros H [->|H1] H2; inversion H; subst.
  - match goal with Hn : ~ In _ _ |- _ => apply Hn end.
    apply in_or_app. now right.
  - now apply IH.
Qed.

Lemma StronglySorted_filter {A : Type} (R : A -> A -> Prop) (f : A -> bool) l :
  StronglySorted R l -> StronglySorted R (filter f l).
Proof.
  induction 1 as [|a l Hs IH Ha]; simpl; [constructor|].
  destruct (f a); [|exact IH]. constructor; [exact IH|].
  rewrite Forall_forall in Ha |- *. intros x Hx.
  apply filter_In in Hx. now apply Ha.
Qed.

(** The preference list is sorted by the comparator. *)
Lemma preferred_suffix_sorted l2 : forall l1,
  preferred = l1 ++ l2 -> NoDup preferred -> StronglySorted le l2.
Proof.
  induction l2 as [|a l2 IH]; intros l1 E Hnd; [constructor|].
  constructor.
  - apply (IH (l1 ++ [a])); [now rewrite <- app_assoc | exact Hnd].
  - apply Forall_forall. intros b Hb.
    rewrite E in Hnd.
    assert (Ha1 : ~ In a l1).
    { intro Hin. apply (NoDup_app_disjoint l1 (a :: l2) a Hnd Hin). now left. }
    assert (Hb1 : ~ In b l1).
    { intro Hin. apply (NoDup_app_disjoint l1 (a :: l2) b Hnd Hin). now right. }
    assert (Hab : a <> b).
    { intros ->. apply NoDup_app_remove_l in Hnd. inversion Hnd; contradiction. }
    assert (Ia : indexOf preferred a = Z.of_nat (length l1)).
    { rewrite E, indexOf_app_r, indexOf_head; [lia | exact Ha1 | now left]. }
    assert (Ib : indexOf preferred b > Z.of_nat (length l1)).
    { rewrite E, indexOf_app_r; [|exact Hb1 | now right].
      simpl. apply String.eqb_neq in Hab. rewrite Hab.
      assert (indexOf l2 b <> -1) by (now rewrite indexOf_absent).
      pose proof (indexOf_range l2 b).
      destruct (indexOf l2 b =? -1) eqn:E1; [apply Z.eqb_eq in E1; lia | lia]. }
    unfold le, cmp, cmp_le, compareColumns.
    destruct (indexOf preferred a =? -1) eqn:Ea; [apply Z.eqb_eq in Ea; lia|].
    destruct (indexOf preferred b =? -1) eqn:Eb; [apply Z.eqb_eq in Eb; lia|].
    simpl. lia.
Qed.

(** The preferred names of the result are those of the preference list that
    occur in the rows, in the list's order. *)
Lemma orderColumns_preferred_part rows :
  NoDup preferred ->
  filter (is_preferred preferred) (orderColumns localeCompare preferred rows)
  = filter (set_has (collectColumns rows)) preferred.
Proof.
  intros Hnd. apply (sorted_perm_eq cmp).
  - apply StronglySorted_filter, orderColumns_sorted.
  - apply StronglySorted_filter. now apply (preferred_suffix_sorted preferred []).
  - apply NoDup_Permutation.
    + apply NoDup_filter, orderColumns_NoDup.
    + now apply NoDup_filter.
    + intros x. rewrite !filter_In, orderColumns_In, is_preferred_In,
        set_has_In, collectColumns_In. tauto.
  - intros a b Ha Hb Hab Hba.
    apply filter_In in Ha. destruct Ha as [_ Pa].
    destruct (compareColumns_tie a b Hab Hba) as [E|[Pa' _]]; [exact E | congruence].
Qed.

Lemma js_sort_ext {A : Type} (c1 c2 : A -> A -> Z) l :
  (forall a b, In a l -> In b l -> c1 a b = c2 a b) -> js_sort c1 l = js_sort c2 l.
Proof.
  induction l as [|x l IH]; intros H; simpl; [reflexivity|].
  rewrite IH by (intros a b Ha Hb; apply H; now right).
  assert (Hin : forall b, In b (js_sort c2 l) -> c1 x b = c2 x b).
  { intros b Hb. apply H; [now left | right; now apply js_sort_In in Hb]. }
  revert Hin. generalize (js_sort c2 l). intros s.
  induction s as [|y s IHs]; intros Hin; simpl; [reflexivity|].
  rewrite (Hin y (or_introl eq_refl)).
  destruct (c2 x y <=? 0); [reflexivity|].
  f_equal. apply IHs. intros b Hb. apply Hin. now right.
Qed.

(** The other names of the result are those of the rows, sorted by
    [localeCompare] alone. *)
Lemma orderColumns_other_part rows :
  filter (fun c => negb (is_preferred preferred c))
         (orderColumns localeCompare preferred rows)
  = js_sort localeCompare
      (filter (fun c => negb (is_preferred preferred c)) (collectColumns rows)).
Proof.
  unfold orderColumns. rewrite seen_keys_collectColumns.
  rewrite (filter_js_sort cmp anyName);
    [| apply compareColumns_total | apply compareColumns_trans | apply all_names].
  apply js_sort_ext. intros a b Ha Hb.
  apply filter_In in Ha, Hb. destruct Ha as [_ Pa], Hb as [_ Pb].
  unfold is_preferred in Pa, Pb. rewrite negb_involutive in Pa, Pb.
  unfold cmp, compareColumns. now rewrite Pa, Pb.
Qed.

End ColumnOrder.

(* ------------------------------------------------------------------ *)
(** ** The two reference comparators are consistent *)

Lemma ascii_compare_trans x y z o :
  Ascii.compare x y = o -> Ascii.compare y z = o -> Ascii.compare x z = o.
Proof.
  unfold Ascii.compare. intros H1 H2. destruct o.
  - apply N.compare_eq_iff in H1. apply N.compare_eq_iff in H2.
    apply N.compare_eq_iff. congruence.
  - apply N.compare_lt_iff in H1. apply N.compare_lt_iff in H2.
    apply N.compare_lt_iff. now apply (N.lt_trans _ _ _ H1 H2).
  - apply N.compare_gt_iff in H1. apply N.compare_gt_iff in H2.
    apply N.compare_gt_iff. now apply (N.lt_trans _ _ _ H2 H1).
Qed.

Lemma string_compare_trans a : forall b c,
  String.compare a b <> Gt -> String.compare b c <> Gt -> String.compare a c <> Gt.
Proof.
  induction a as [|x a IH]; intros [|y b] [|z c]; simpl; try congruence.
  destruct (Ascii.compare x y) eqn:Exy; destruct (Ascii.compare y z) eqn:Eyz;
    try congruence; intros H1 H2.
  - rewrite (ascii_compare_trans x y z Eq Exy Eyz). now apply (IH b c).
  - apply Ascii.compare_eq_iff in Exy. subst. now rewrite Eyz.
  - apply Ascii.compare_eq_iff in Eyz. subst. now rewrite Exy.
  - now rewrite (ascii_compare_trans x y z Lt Exy Eyz).
Qed.

Lemma compare_bytes_sym a b : compare_bytes a b < 0 <-> 0 < compare_bytes b a.
Proof.
  unfold compare_bytes. rewrite (String.compare_antisym b a).
  destruct (String.compare a b); simpl; lia.
Qed.

Lemma compare_bytes_trans a b c :
  compare_bytes a b <= 0 -> compare_bytes b c <= 0 -> compare_bytes a c <= 0.
Proof.
  unfold compare_bytes. intros H1 H2.
  assert (String.compare a c <> Gt).
  { apply (string_compare_trans a b c).
    - destruct (String.compare a b); [congruence | congruence | exfalso; lia].
    - destruct (String.compare b c); [congruence | congruence | exfalso; lia]. }
  destruct (String.compare a c); [lia | lia | congruence].
Qed.

Lemma compare_bytes_zero a b : compare_bytes a b = 0 -> a = b.
Proof.
  unfold compare_bytes. destruct (String.compare a b) eqn:E; try lia.
  intros _. now apply String.compare_eq_iff.
Qed.

Lemma compare_canonical_sym a b :
  compare_canonical a b < 0 <-> 0 < compare_canonical b a.
Proof. apply compare_bytes_sym. Qed.

Lemma compare_canonical_trans a b c :
  compare_canonical a b <= 0 -> compare_canonical b c <= 0 -> compare_canonical a c <= 0.
Proof. apply compare_bytes_trans. Qed.

(* ------------------------------------------------------------------ *)
(** ** First-seen order *)

Lemma filter_filter {A : Type} (f g : A -> bool) l :
  filter f (filter g l) = filter (fun x => g x && f x) l.
Proof.
  induction l as [|x l IH]; simpl; [reflexivity|].
  destruct (g x); simpl; [destruct (f x)|]; now rewrite IH.
Qed.

Lemma filter_all {A : Type} (f : A -> bool) l :
  (forall x, In x l -> f x = true) -> filter f l = l.
Proof.
  induction l as [|x l IH]; intros H; simpl; [reflexivity|].
  rewrite (H x (or_introl eq_refl)). f_equal. apply IH. intros y Hy. apply H. now right.
Qed.

Lemma set_has_app s k y : set_has (s ++ [k]) y = set_has s y || String.eqb y k.
Proof. unfold set_has. rewrite existsb_app. simpl. now rewrite orb_false_r. Qed.

Lemma fold_set_add_first_seen ks : forall s,
  fold_left set_add ks s = s ++ filter (fun y => negb (set_has s y)) (first_seen ks).
Proof.
  induction ks as [|k ks IH]; intros s; simpl; [now rewrite app_nil_r|].
  rewrite IH. unfold set_add. destruct (set_has s k) eqn:E; simpl.
  - f_equal. rewrite filter_filter. apply filter_ext. intros y.
    destruct (String.eqb y k) eqn:Ey; simpl; [|reflexivity].
    apply String.eqb_eq in Ey. subst. now rewrite E.
  - rewrite <- app_assoc. simpl. do 2 f_equal.
    rewrite filter_filter. apply filter_ext. intros y.
    rewrite set_has_app. now destruct (String.eqb y k); destruct (set_has s y).
Qed.

Lemma collect_concat rows : forall s,
  fold_left (fun columnSet row => fold_left set_add (Object_keys row) columnSet) rows s
  = fold_left set_add (concat (map Object_keys rows)) s.
Proof.
  induction rows as [|row rows IH]; intros s; simpl; [reflexivity|].
  now rewrite fold_left_app, IH.
Qed.

(** [collectColumns] lists the field names in the order in which they are
    first met, reading the rows in order and each row's keys in order. *)
Lemma collectColumns_first_seen rows :
  collectColumns rows = first_seen (concat (map Object_keys rows)).
Proof.
  unfold collectColumns. rewrite collect_concat, fold_set_add_first_seen. simpl.
  apply filter_all. reflexivity.
Qed.

Lemma fold_set_add_members ks : forall s,
  (forall c, In c ks -> In c s) -> fold_left set_add ks s = s.
Proof.
  induction ks as [|k ks IH]; intros s H; simpl; [reflexivity|].
  assert (E : set_add s k = s).
  { unfold set_add. assert (Hk : In k s) by (apply H; now left).
    apply set_has_In in Hk. now rewrite Hk. }
  rewrite E. apply IH. intros c Hc. apply H. now right.
Qed.

Lemma fold_set_add_one_new ks : forall s k,
  In k ks -> ~ In k s -> (forall c, In c ks -> c = k \/ In c s) ->
  fold_left set_add ks s = s ++ [k].
Proof.
  induction ks as [|x ks IH]; intros s k Hk Hn Hall; simpl; [contradiction|].
  destruct (string_dec x k) as [->|Hx].
  - assert (E : set_add s k = s ++ [k]).
    { unfold set_add. apply set_has_false in Hn. now rewrite Hn. }
    rewrite E. apply fold_set_add_members.
    intros c Hc. apply in_or_app.
    destruct (Hall c (or_intror Hc)) as [->|H]; [right; now left | now left].
  - assert (Hxs : In x s) by (destruct (Hall x (or_introl eq_refl)); tauto).
    assert (E : set_add s x = s).
    { unfold set_add. apply set_has_In in Hxs. now rewrite Hxs. }
    rewrite E. apply IH; [destruct Hk; tauto | exact Hn |].
    intros c Hc. apply Hall. now right.
Qed.

(** A further row that brings one new field name appends it. *)
Lemma collectColumns_new_field rows row k :
  In k (Object_keys row) -> ~ is_field_name rows k ->
  (forall c, In c (Object_keys row) -> c = k \/ is_field_name rows c) ->
  collectColumns (rows ++ [row]) = collectColumns rows ++ [k].
Proof.
  intros Hk Hn Hall. unfold collectColumns. rewrite fold_left_app. simpl.
  fold (collectColumns rows).
  apply fold_set_add_one_new; [exact Hk | now rewrite collectColumns_In |].
  intros c Hc. rewrite collectColumns_In. now apply Hall.
Qed.

Lemma js_sort_sorted_id {A : Type} (cmp : A -> A -> Z) l :
  StronglySorted (cmp_le cmp) l -> js_sort cmp l = l.
Proof.
  induction 1 as [|a l Hs IH Ha]; simpl; [reflexivity|].
  rewrite IH. now apply sort_insert_least.
Qed.

(* ================================================================== *)
(** * Part V.  Claims about the column order (C4, C5) *)

Section ColumnClaims.
Variable localeCompare : string -> string -> Z.
Variable preferred : list string.
Hypothesis localeCompare_sym :
  forall a b, localeCompare a b < 0 <-> 0 < localeCompare b a.
Hypothesis localeCompare_trans :
  forall a b c, localeCompare a b <= 0 -> localeCompare b c <= 0 -> localeCompare a c <= 0.

Let others := filter (fun c => negb (is_preferred preferred c)).

Lemma localeCompare_total_on : total_on localeCompare (fun _ => True).
Proof.
  intros a b _ _. unfold cmp_le.
  destruct (Z_le_gt_dec (localeCompare a b) 0) as [H|H]; [now left|].
  right. assert (localeCompare b a < 0) by (apply localeCompare_sym; lia). lia.
Qed.

Lemma localeCompare_trans_on : trans_on localeCompare (fun _ => True).
Proof. intros a b c _ _ _. apply localeCompare_trans. Qed.

(** C4 (as amended).  Two row sequences with the same rows get the same
    column order from [orderColumns], whatever the order and repetition of
    the rows, provided [localeCompare] returns 0 on no two different field
    names that are off the preference list; and sorting the result again
    leaves it as it is. *)
Theorem orderColumns_order_independent (rows1 rows2 : list HistoryRow) :
  (forall row, In row rows1 <-> In row rows2) ->
  (forall a b, is_field_name rows1 a -> is_field_name rows1 b ->
     is_preferred preferred a = false -> is_preferred preferred b = false ->
     localeCompare a b = 0 -> a = b) ->
  orderColumns localeCompare preferred rows1 = orderColumns localeCompare preferred rows2
  /\ js_sort (compareColumns localeCompare preferred)
             (orderColumns localeCompare preferred rows1)
     = orderColumns localeCompare preferred rows1.
Proof.
  intros Hsame Hties.
  pose proof (orderColumns_sorted localeCompare preferred localeCompare_sym
                localeCompare_trans) as Hsorted.
  split; [|apply js_sort_sorted_id, Hsorted].
  apply (sorted_perm_eq (compareColumns localeCompare preferred)); try apply Hsorted.
  - apply NoDup_Permutation; try apply orderColumns_NoDup.
    intros x. rewrite !orderColumns_In. split; apply is_field_name_ext; [|symmetry]; auto.
  - intros a b Ha Hb Hab Hba.
    destruct (compareColumns_tie localeCompare preferred localeCompare_sym a b Hab Hba)
      as [E|[Pa [Pb E]]]; [exact E|].
    apply orderColumns_In in Ha, Hb. now apply Hties.
Qed.

Lemma orderColumns_shape (rows : list HistoryRow) :
  NoDup preferred ->
  orderColumns localeCompare preferred rows
  = filter (set_has (collectColumns rows)) preferred
    ++ js_sort localeCompare (others (collectColumns rows)).
Proof.
  intros Hnd.
  pose proof (sorted_split localeCompare preferred
                (orderColumns localeCompare preferred rows)
                (orderColumns_sorted localeCompare preferred localeCompare_sym
                   localeCompare_trans rows)) as Hsplit.
  rewrite (orderColumns_preferred_part localeCompare preferred localeCompare_sym
             localeCompare_trans rows Hnd) in Hsplit.
  rewrite (orderColumns_other_part localeCompare preferred localeCompare_sym
             localeCompare_trans rows) in Hsplit.
  exact Hsplit.
Qed.

(** C5.  [orderColumns] returns exactly the field names of the rows, each
    once: first the names of the preference list that occur, in the list's
    order, then the other names sorted by [localeCompare].  A further row
    that brings one name never seen and off the list leaves the preferred
    names and the order of the others as they were, and puts the new name
    at its sorted place among the others. *)
(** C5.  [orderColumns] returns exactly the field names of the rows, each
    once: first the names of the preference list that occur, in the list's
    order, then the other names sorted by [localeCompare].  A further row
    that brings one name never seen and off the list leaves the preferred
    names and the order of the others as they were, and puts the new name
    at its sorted place among the others. *)
Theorem orderColumns_preferred_then_alphabetical (rows : list HistoryRow) :
  NoDup preferred ->
  let columns := orderColumns localeCompare preferred rows in
  (forall c, In c columns <-> is_field_name rows c)
  /\ NoDup columns
  /\ columns = filter (set_has (collectColumns rows)) preferred
               ++ js_sort localeCompare (others (collectColumns rows))
  /\ StronglySorted (fun a b => localeCompare a b <= 0)
       (js_sort localeCompare (others (collectColumns rows)))
  /\ (forall (row : HistoryRow) (k : string),
        In k (Object_keys row) -> ~ is_field_name rows k ->
        is_preferred preferred k = false ->
        (forall c, In c (Object_keys row) -> c = k \/ is_field_name rows c) ->
        let columns' := orderColumns localeCompare preferred (rows ++ [row]) in
        columns' = filter (set_has (collectColumns rows)) preferred
                   ++ js_sort localeCompare (others (collectColumns rows) ++ [k])
        /\ filter (fun c => negb (String.eqb c k)) columns' = columns).
Proof.
  intros Hnd columns.
  assert (Hall_names : forall l : list string, Forall (fun _ => True) l).
  { intros l. apply Forall_forall. intros; exact I. }
  split; [intros c; apply orderColumns_In|].
  split; [apply orderColumns_NoDup|].
  split; [now apply orderColumns_shape|].
  split.
  { apply (js_sort_sorted localeCompare (fun _ => True));
      [apply localeCompare_total_on | apply localeCompare_trans_on | apply Hall_names]. }
  intros row k Hk Hnew Hoff Hall columns'.
  assert (Ecol : collectColumns (rows ++ [row]) = collectColumns rows ++ [k])
    by (now apply collectColumns_new_field).
  assert (Eshape : columns' = filter (set_has (collectColumns rows)) preferred
                   ++ js_sort localeCompare (others (collectColumns rows) ++ [k])).
  { unfold columns'. rewrite (orderColumns_shape _ Hnd), Ecol. f_equal.
    - apply filter_ext_in. intros p Hp. rewrite set_has_app.
      destruct (String.eqb p k) eqn:E; [|now rewrite orb_false_r].
      apply String.eqb_eq in E. subst p.
      apply (proj2 (is_preferred_In preferred k)) in Hp. congruence.
    - unfold others. rewrite filter_app. simpl. now rewrite Hoff. }
  split; [exact Eshape|].
  rewrite Eshape. unfold columns. rewrite (orderColumns_shape _ Hnd), filter_app.
  f_equal.
  - apply filter_all. intros p Hp. apply filter_In in Hp. destruct Hp as [Hp _].
    apply negb_true_iff, String.eqb_neq. intros ->.
    apply (proj2 (is_preferred_In preferred k)) in Hp. congruence.
  - rewrite (filter_js_sort localeCompare (fun _ => True));
      [| apply localeCompare_total_on | apply localeCompare_trans_on | apply Hall_names].
    f_equal. rewrite filter_app. simpl. rewrite String.eqb_refl. simpl.
    rewrite app_nil_r. apply filter_all. intros c Hc.
    apply negb_true_iff, String.eqb_neq. intros ->.
    apply filter_In in Hc. destruct Hc as [Hc _].
    apply Hnew. now apply collectColumns_In.
Qed.

End ColumnClaims.

Lemma PREFERRED_ORDER_NoDup : NoDup PREFERRED_ORDER.
Proof.
  unfold PREFERRED_ORDER.
  repeat (constructor; [simpl; intuition discriminate|]). constructor.
Qed.

Lemma PREFERRED_ORDER_snapshot_NoDup : NoDup PREFERRED_ORDER_snapshot.
Proof.
  unfold PREFERRED_ORDER_snapshot.
  repeat (constructor; [simpl; intuition discriminate|]). constructor.
Qed.

Lemma sample_rows_same_rows :
  forall row, In row sample_rows <-> In row sample_rows_swapped.
Proof. intros row. unfold sample_rows, sample_rows_swapped. simpl. tauto. Qed.

(** The claim of C4 at the sample rows and their swap, ordered by bytes. *)
Lemma orderColumns_order_independent_witness :
  orderColumns compare_bytes PREFERRED_ORDER sample_rows
  = orderColumns compare_bytes PREFERRED_ORDER sample_rows_swapped
  /\ js_sort (compareColumns compare_bytes PREFERRED_ORDER)
             (orderColumns compare_bytes PREFERRED_ORDER sample_rows)
     = orderColumns compare_bytes PREFERRED_ORDER sample_rows.
Proof.
  apply (orderColumns_order_independent compare_bytes PREFERRED_ORDER
           compare_bytes_sym compare_bytes_trans sample_rows sample_rows_swapped).
  - exact sample_rows_same_rows.
  - intros a b _ _ _ _ H. exact (compare_bytes_zero a b H).
Defined.

(** C4 as stated fails.  [compare_canonical] is a consistent comparator.
    The two spellings of one accented name are different field names on
    which it returns 0, as a conforming [localeCompare] does; the stable
    sort then keeps them in the order the rows brought them, so the same
    two rows in the other order give the other column order. *)
Lemma orderColumns_tie_follows_row_order :
  ((forall a b, compare_canonical a b < 0 <-> 0 < compare_canonical b a)
   /\ (forall a b c, compare_canonical a b <= 0 -> compare_canonical b c <= 0 ->
                     compare_canonical a c <= 0))
  /\ String.eqb cafe_precomposed cafe_decomposed = false
  /\ compare_canonical cafe_precomposed cafe_decomposed = 0
  /\ (In [(cafe_precomposed, JInt 1)] accent_rows_swapped
      /\ In [(cafe_decomposed, JInt 2)] accent_rows_swapped)
  /\ orderColumns compare_canonical PREFERRED_ORDER accent_rows
     = [cafe_precomposed; cafe_decomposed]
  /\ orderColumns compare_canonical PREFERRED_ORDER accent_rows_swapped
     = [cafe_decomposed; cafe_precomposed].
Proof.
  split; [split; [exact compare_canonical_sym | exact compare_canonical_trans]|].
  repeat split; try reflexivity.
  - right. now left.
  - now left.
Qed.

(** The claim of C5 at the sample rows, ordered by bytes. *)
Lemma orderColumns_preferred_then_alphabetical_witness :
  NoDup PREFERRED_ORDER
  /\ orderColumns compare_bytes PREFERRED_ORDER sample_rows
     = ["created_at"; "action"; "notes"] ++ ["b"; "n"; "zeta"]
  /\ StronglySorted (fun a b => compare_bytes a b <= 0)
       (js_sort compare_bytes
          (filter (fun c => negb (is_preferred PREFERRED_ORDER c))
                  (collectColumns sample_rows))).
Proof.
  pose proof (orderColumns_preferred_then_alphabetical compare_bytes PREFERRED_ORDER
                compare_bytes_sym compare_bytes_trans sample_rows
                PREFERRED_ORDER_NoDup) as H.
  split; [exact PREFERRED_ORDER_NoDup|].
  split; [exact (proj1 (proj2 (proj2 H))) | exact (proj1 (proj2 (proj2 (proj2 H))))].
Defined.

(* ================================================================== *)
(** * Part VI.  The CSV export *)

Lemma test_special_spec s : test_special s = true <-> has_special s.
Proof.
  unfold has_special. induction s as [|c s IH]; simpl.
  - split; [discriminate | tauto].
  - rewrite !orb_true_iff, IH, !Ascii.eqb_eq. tauto.
Qed.

Lemma test_special_false s : test_special s = false <-> ~ has_special s.
Proof.
  rewrite <- test_special_spec. destruct (test_special s); split; congruence.
Qed.

Lemma test_special_app a b :
  test_special (a +++ b) = test_special a || test_special b.
Proof.
  induction a as [|c a IH]; simpl; [reflexivity|]. rewrite IH.
  now rewrite !orb_assoc.
Qed.

Lemma replace_quotes_doubled s : replace_quotes s = doubled_quotes s.
Proof.
  unfold doubled_quotes. induction s as [|c s IH]; simpl; [reflexivity|].
  destruct (Ascii.eqb c DQUOTE); simpl; now rewrite IH.
Qed.

Lemma replace_quotes_none s : ~ occurs DQUOTE s -> replace_quotes s = s.
Proof.
  induction s as [|c s IH]; simpl; intros H; [reflexivity|].
  destruct (Ascii.eqb c DQUOTE) eqn:E.
  - apply Ascii.eqb_eq in E. tauto.
  - f_equal. apply IH. tauto.
Qed.

Lemma digit_plain d : test_special (str1 (digit d)) = false.
Proof.
  unfold digit.
  repeat match goal with
         | |- context [match ?x with _ => _ end] => destruct x
         end; reflexivity.
Qed.

Lemma pad_plain k : forall n, test_special (pad k n) = false.
Proof.
  induction k as [|k IH]; intros n; simpl; [reflexivity|].
  now rewrite test_special_app, IH, digit_plain.
Qed.

Lemma digits_of_plain fuel : forall n, test_special (digits_of fuel n) = false.
Proof.
  induction fuel as [|f IH]; intros n; simpl; [reflexivity|].
  rewrite test_special_app, digit_plain, orb_false_r.
  destruct (n <? 10); [reflexivity | apply IH].
Qed.

(** An ISO timestamp holds digits, signs and the letters T and Z only. *)
Lemma toISOString_plain t : test_special (toISOString t) = false.
Proof.
  unfold toISOString. destruct (civil_from_days (t / MS_PER_DAY)) as [[y m] d].
  repeat rewrite test_special_app. repeat rewrite pad_plain.
  destruct ((0 <=? y) && (y <=? 9999)); [|destruct (y <? 0)];
    repeat rewrite test_special_app; repeat rewrite pad_plain; reflexivity.
Qed.

(** What [escapeCsvValue] makes of the text of a value that is no [Date]. *)
Lemma escape_text_cases (str : string) :
  (has_special str ->
     (let escaped := replace_quotes str in
      if test_special str then str1 DQUOTE +++ escaped +++ str1 DQUOTE else escaped)
     = str1 DQUOTE +++ doubled_quotes str +++ str1 DQUOTE)
  /\ (~ has_special str ->
     (let escaped := replace_quotes str in
      if test_special str then str1 DQUOTE +++ escaped +++ str1 DQUOTE else escaped)
     = str).
Proof.
  split; intros H; cbv zeta.
  - apply test_special_spec in H. rewrite H. now rewrite replace_quotes_doubled.
  - pose proof H as H'. apply test_special_false in H'. rewrite H'.
    apply replace_quotes_none. unfold has_special in H. tauto.
Qed.

(** C6.  [escapeCsvValue] renders an absent or null value as the empty
    field; a value whose text holds a comma, a double quote or a line feed
    as that text between double quotes, every quote of the text written
    twice; any other value as its text.  The value He said [q]hi[q], ok
    (with [q] the double quote) comes out as
    [q]He said [q][q]hi[q][q], ok[q]. *)
Theorem escapeCsvValue_cases :
  (forall value : JsValue,
      (value = JNull \/ value = JUndefined -> escapeCsvValue value = "")
      /\ (has_special (cell_text value) ->
          escapeCsvValue value
          = str1 DQUOTE +++ doubled_quotes (cell_text value) +++ str1 DQUOTE)
      /\ (~ has_special (cell_text value) ->
          escapeCsvValue value = cell_text value))
  /\ escapeCsvValue
       (JString ("He said " +++ str1 DQUOTE +++ "hi" +++ str1 DQUOTE +++ ", ok"))
     = str1 DQUOTE +++ "He said " +++ str1 DQUOTE +++ str1 DQUOTE +++ "hi"
       +++ str1 DQUOTE +++ str1 DQUOTE +++ ", ok" +++ str1 DQUOTE.
Proof.
  split; [|reflexivity].
  intros value. split; [intros [->| ->]; reflexivity|].
  destruct value as [| |t|s|b|n|o]; simpl cell_text; unfold escapeCsvValue.
  - split; [intros [H|[H|H]]; contradiction | reflexivity].
  - split; [intros [H|[H|H]]; contradiction | reflexivity].
  - split; [|reflexivity].
    intros H. apply test_special_spec in H. simpl js_String in H.
    rewrite toISOString_plain in H. discriminate.
  - apply escape_text_cases.
  - apply escape_text_cases.
  - apply escape_text_cases.
  - apply escape_text_cases.
Qed.

(** C10.  When both parameters of an export request are accepted and the
    store answers the read without error and with no row ([data] empty or
    null), [GET] answers with the CSV response whose body is the empty
    string, after that one read: [toCsv] writes no header for no rows. *)
Theorem GET_no_rows_empty_body
  (parseISO : string -> option Z) (tz : Z) (store : Query -> QueryResult)
  (startParam endParam : option string) (startDate endDate : option Z) :
  parseDateParam parseISO tz startParam true = inr startDate ->
  parseDateParam parseISO tz endParam false = inr endDate ->
  error (store (export_query startDate endDate)) = None ->
  data (store (export_query startDate endDate)) = Some []
  \/ data (store (export_query startDate endDate)) = None ->
  GET parseISO tz store startParam endParam
  = (CsvResponse "", [export_query startDate endDate])
  /\ toCsv [] = "".
Proof.
  intros Hs He Herr Hdata. split; [|reflexivity].
  unfold GET. rewrite Hs, He. fold (export_query startDate endDate).
  rewrite Herr. destruct Hdata as [-> | ->]; reflexivity.
Qed.

(** The claim of C10 for the request start=2024-05-01, end=2024-05-10
    against a store without rows. *)
Lemma GET_no_rows_empty_body_witness :
  GET (parseISO_date WIB) WIB empty_store (Some "2024-05-01") (Some "2024-05-10")
  = (CsvResponse "",
     [export_query (Some 1714496400000) (Some 1715360399999)])
  /\ toCsv [] = "".
Proof.
  apply (GET_no_rows_empty_body (parseISO_date WIB) WIB empty_store
           (Some "2024-05-01") (Some "2024-05-10")
           (Some 1714496400000) (Some 1715360399999));
    try reflexivity.
  left. reflexivity.
Defined.

(** The document of a non-empty row set starts with the header. *)
Lemma toCsv_header rows :
  rows <> [] ->
  toCsv rows
  = join "," (collectColumns rows) +++ CRLF
    +++ join CRLF (map (csv_line (collectColumns rows)) rows).
Proof.
  destruct rows as [|row rows]; [congruence|]. intros _. reflexivity.
Qed.

(** C8 (as amended).  The document [toCsv] writes for a non-empty row set
    starts with the field names joined by commas, in the order in which
    they are first met in the rows ([collectColumns]), followed by a line
    break and the rows' lines.  These are the names [orderColumns] yields,
    each once; their order is the first-seen one, not the viewer's. *)
Theorem toCsv_header_first_seen
  (localeCompare : string -> string -> Z) (preferred : list string)
  (rows : list HistoryRow) :
  rows <> [] ->
  toCsv rows
  = join "," (first_seen (concat (map Object_keys rows))) +++ CRLF
    +++ join CRLF (map (csv_line (collectColumns rows)) rows)
  /\ collectColumns rows = first_seen (concat (map Object_keys rows))
  /\ Permutation (collectColumns rows) (orderColumns localeCompare preferred rows).
Proof.
  intros Hne. split; [|split].
  - rewrite <- collectColumns_first_seen. now apply toCsv_header.
  - apply collectColumns_first_seen.
  - unfold orderColumns. rewrite seen_keys_collectColumns. apply js_sort_perm.
Qed.

(** The amended C8 at one row whose keys are not in the viewer's order. *)
Lemma toCsv_header_first_seen_witness :
  toCsv [[("notes", JString "x"); ("created_at", JString "t")]]
  = join "," (first_seen (concat (map Object_keys
                [[("notes", JString "x"); ("created_at", JString "t")]])))
    +++ CRLF
    +++ join CRLF (map (csv_line (collectColumns
                [[("notes", JString "x"); ("created_at", JString "t")]]))
                [[("notes", JString "x"); ("created_at", JString "t")]])
  /\ collectColumns [[("notes", JString "x"); ("created_at", JString "t")]]
     = first_seen (concat (map Object_keys
                [[("notes", JString "x"); ("created_at", JString "t")]]))
  /\ Permutation
       (collectColumns [[("notes", JString "x"); ("created_at", JString "t")]])
       (orderColumns compare_bytes PREFERRED_ORDER
          [[("notes", JString "x"); ("created_at", JString "t")]]).
Proof.
  apply (toCsv_header_first_seen compare_bytes PREFERRED_ORDER
           [[("notes", JString "x"); ("created_at", JString "t")]]).
  discriminate.
Defined.

(** C8 as stated fails: for the one row with the keys notes, created_at
    the header is notes,created_at, while [orderColumns] puts created_at
    first. *)
Lemma toCsv_header_not_ordered :
  toCsv [[("notes", JString "x"); ("created_at", JString "t")]]
  = "notes,created_at" +++ CRLF +++ "x,t"
  /\ orderColumns compare_bytes PREFERRED_ORDER
       [[("notes", JString "x"); ("created_at", JString "t")]]
     = ["created_at"; "notes"]
  /\ join "," ["created_at"; "notes"] = "created_at,notes".
Proof. repeat split; reflexivity. Qed.

(* ------------------------------------------------------------------ *)
(** ** Reading back what [toCsv] wrote *)

Lemma append_assoc (a b c : string) : (a +++ b) +++ c = a +++ (b +++ c).
Proof. induction a as [|x a IH]; simpl; [reflexivity | now rewrite IH]. Qed.

Lemma append_nil_r (a : string) : a +++ "" = a.
Proof. induction a as [|x a IH]; simpl; [reflexivity | now rewrite IH]. Qed.

Lemma plain_cons c s : plain (String c s) <-> plain_char c /\ plain s.
Proof. unfold plain, plain_char. simpl. tauto. Qed.

Lemma read_plain_char c rest st field record :
  plain_char c -> st = FieldStart \/ st = Unquoted ->
  read_csv (String c rest) st field record
  = read_csv rest Unquoted (field +++ str1 c) record.
Proof.
  intros (H1 & H2 & H3 & H4) Hst.
  apply Ascii.eqb_neq in H1, H2, H3, H4.
  destruct Hst as [-> | ->]; simpl; now rewrite H1, H2, H3, H4.
Qed.

Lemma read_plain_unquoted f : forall rest field record,
  plain f ->
  read_csv (f +++ rest) Unquoted field record
  = read_csv rest Unquoted (field +++ f) record.
Proof.
  induction f as [|c f IH]; intros rest field record Hp.
  - simpl. now rewrite append_nil_r.
  - apply plain_cons in Hp. destruct Hp as [Hc Hf].
    change (String c f +++ rest) with (String c (f +++ rest)).
    rewrite read_plain_char by (auto).
    rewrite IH by exact Hf. now rewrite append_assoc.
Qed.

(** What the reader does at the end of a field that began at [FieldStart]
    and held the plain text [f]. *)
Lemma read_field_comma f rest record :
  plain f ->
  read_csv (f +++ String COMMA rest) FieldStart "" record
  = read_csv rest FieldStart "" (record ++ [f]).
Proof.
  intros Hp. destruct f as [|c f]; [reflexivity|].
  apply plain_cons in Hp. destruct Hp as [Hc Hf].
  change (String c f +++ String COMMA rest) with (String c (f +++ String COMMA rest)).
  rewrite read_plain_char by auto.
  rewrite read_plain_unquoted by exact Hf. reflexivity.
Qed.

Lemma read_field_crlf f rest record :
  plain f ->
  read_csv (f +++ CRLF +++ rest) FieldStart "" record
  = (record ++ [f]) :: read_csv rest FieldStart "" [].
Proof.
  intros Hp. destruct f as [|c f]; [reflexivity|].
  apply plain_cons in Hp. destruct Hp as [Hc Hf].
  change (String c f +++ CRLF +++ rest) with (String c (f +++ CRLF +++ rest)).
  rewrite read_plain_char by auto.
  rewrite read_plain_unquoted by exact Hf. reflexivity.
Qed.

Lemma read_field_end f record :
  plain f -> f <> "" \/ record <> [] ->
  read_csv f FieldStart "" record = [record ++ [f]].
Proof.
  intros Hp Hne. destruct f as [|c f].
  - destruct record; [destruct Hne; congruence | reflexivity].
  - apply plain_cons in Hp. destruct Hp as [Hc Hf].
    rewrite read_plain_char by auto.
    rewrite <- (append_nil_r f) at 1.
    rewrite read_plain_unquoted by exact Hf. reflexivity.
Qed.

Lemma join_cons2 sep a b l : join sep (a :: b :: l) = a +++ sep +++ join sep (b :: l).
Proof. reflexivity. Qed.

(** A line of plain fields followed by a line break. *)
Lemma read_line_crlf fs : forall f record rest,
  Forall plain (f :: fs) ->
  read_csv (join "," (f :: fs) +++ CRLF +++ rest) FieldStart "" record
  = (record ++ f :: fs) :: read_csv rest FieldStart "" [].
Proof.
  induction fs as [|g fs IH]; intros f record rest Hp.
  - inversion Hp; subst. now apply read_field_crlf.
  - inversion Hp as [|? ? Hf Hp']; subst.
    rewrite join_cons2, !append_assoc.
    change ("," +++ join "," (g :: fs) +++ CRLF +++ rest)
      with (String COMMA (join "," (g :: fs) +++ CRLF +++ rest)).
    rewrite read_field_comma by exact Hf.
    rewrite IH by exact Hp'. now rewrite <- app_assoc.
Qed.

(** The last line, with no line break after it. *)
Lemma read_line_end fs : forall f record,
  Forall plain (f :: fs) ->
  join "," (f :: fs) <> "" \/ record <> [] ->
  read_csv (join "," (f :: fs)) FieldStart "" record = [record ++ f :: fs].
Proof.
  induction fs as [|g fs IH]; intros f record Hp Hne.
  - inversion Hp; subst. apply read_field_end; [assumption|].
    destruct Hne as [H|H]; [left; exact H | now right].
  - inversion Hp as [|? ? Hf Hp']; subst.
    rewrite join_cons2.
    change ("," +++ join "," (g :: fs)) with (String COMMA (join "," (g :: fs))).
    rewrite read_field_comma by exact Hf.
    rewrite IH; [now rewrite <- app_assoc | exact Hp' |].
    right. destruct record; discriminate.
Qed.

Lemma last_cons {A : Type} (l : list A) : forall (x d : A),
  last (x :: l) d = last l x.
Proof.
  induction l as [|y l IH]; intros x d; [reflexivity|].
  change (last (x :: y :: l) d) with (last (y :: l) d).
  now rewrite !IH.
Qed.

(** A document of lines of plain fields reads back as those lines, unless
    its last line is empty. *)
Lemma read_document lines : forall line,
  Forall (fun l => l <> [] /\ Forall plain l) (line :: lines) ->
  join "," (last lines line) <> "" ->
  read_csv (join CRLF (map (join ",") (line :: lines))) FieldStart "" []
  = line :: lines.
Proof.
  induction lines as [|l2 lines IH]; intros line Hall Hlast.
  - inversion Hall as [|? ? [Hne Hp] _]; subst. simpl.
    destruct line as [|f fs]; [congruence|].
    rewrite read_line_end; [reflexivity | exact Hp | now left].
  - inversion Hall as [|? ? [Hne Hp] Hall']; subst.
    destruct line as [|f fs]; [congruence|].
    change (map (join ",") ((f :: fs) :: l2 :: lines))
      with (join "," (f :: fs) :: map (join ",") (l2 :: lines)).
    change (join CRLF (join "," (f :: fs) :: map (join ",") (l2 :: lines)))
      with (join "," (f :: fs) +++ CRLF +++ join CRLF (map (join ",") (l2 :: lines))).
    rewrite read_line_crlf by exact Hp.
    rewrite IH; [reflexivity | exact Hall' |].
    now rewrite last_cons in Hlast.
Qed.

Lemma own_property_In row column v :
  own_property row column = Some v -> In (column, v) row.
Proof.
  induction row as [|[k v'] row IH]; simpl; [discriminate|].
  destruct (String.eqb k column) eqn:E.
  - apply String.eqb_eq in E. intros H. inversion H. subst. now left.
  - intros H. right. now apply IH.
Qed.

Lemma own_property_None row column :
  own_property row column = None -> ~ In column (Object_keys row).
Proof.
  induction row as [|[k v'] row IH]; simpl; [tauto|].
  destruct (String.eqb k column) eqn:E; [discriminate|].
  apply String.eqb_neq in E. intros H [H'|H']; [congruence | now apply IH].
Qed.

(** A row that holds every inherited name it is asked for answers with
    its own values only. *)
Lemma row_get_own row column :
  (inherited column -> In column (Object_keys row)) ->
  row_get row column = own_value row column.
Proof.
  intros H. unfold row_get, own_value.
  destruct (own_property row column) eqn:E; [reflexivity|].
  apply own_property_None in E.
  destruct (Object_prototype column) eqn:EP; try reflexivity;
    exfalso; apply E, H; unfold inherited; rewrite EP; discriminate.
Qed.

Lemma own_value_In row column :
  own_value row column = JUndefined \/ In (column, own_value row column) row.
Proof.
  unfold own_value. destruct (own_property row column) eqn:E; [|now left].
  right. now apply own_property_In.
Qed.

Lemma plain_not_special s : plain s -> ~ has_special s.
Proof. unfold plain, has_special. tauto. Qed.

Lemma escapeCsvValue_plain value :
  plain (cell_text value) -> escapeCsvValue value = cell_text value.
Proof.
  intros H. apply plain_not_special in H.
  destruct value as [| |t|s|b|n|o]; try reflexivity;
    simpl cell_text in H; unfold escapeCsvValue; now apply escape_text_cases.
Qed.

Lemma plain_empty : plain "".
Proof. unfold plain. simpl. tauto. Qed.

Lemma last_map {A B : Type} (g : A -> B) (l : list A) (d : A) (d' : B) :
  l <> [] -> last (map g l) d' = g (last l d).
Proof.
  induction l as [|x l IH]; [congruence|]. intros _.
  destruct l as [|y l]; [reflexivity|].
  change (last (map g (x :: y :: l)) d') with (last (map g (y :: l)) d').
  change (last (x :: y :: l) d) with (last (y :: l) d).
  apply IH. discriminate.
Qed.

(** C7 (as amended).  Take a row set in which no field name and no
    value's text holds a comma, a double quote, a line feed or a carriage
    return, and in which every row holds itself each field name that
    objects inherit a property for.  If the set is empty, the document of
    [toCsv] is empty and reading it gives no record.  If it is not, and its
    last row is not written as an empty line, reading the document as
    RFC 4180 has it gives back the column names and then, row by row, the
    text of the value every row holds under those columns (the empty text
    for an absent or null value). *)
Theorem toCsv_round_trip (rows : list HistoryRow) :
  (forall c, is_field_name rows c -> plain c) ->
  (forall row k v, In row rows -> In (k, v) row -> plain (cell_text v)) ->
  (forall row c, In row rows -> is_field_name rows c -> inherited c ->
                 In c (Object_keys row)) ->
  (rows = [] -> toCsv rows = "" /\ parse_csv (toCsv rows) = [])
  /\ (rows <> [] ->
      csv_line (collectColumns rows) (last rows []) <> "" ->
      parse_csv (toCsv rows) = table_of rows).
Proof.
  intros Hnames Hvalues Hown. split; [intros ->; split; reflexivity|].
  intros Hne Hlast.
  set (columns := collectColumns rows) in *.
  assert (Hget : forall row column, In row rows -> In column columns ->
            row_get row column = own_value row column).
  { intros row column Hrow Hcol. apply row_get_own. intros Hi.
    apply (Hown row column Hrow); [|exact Hi]. now apply collectColumns_In. }
  assert (Hcell : forall row column, In row rows ->
            plain (cell_text (own_value row column))).
  { intros row column Hrow.
    destruct (own_value_In row column) as [E|Hk].
    - rewrite E. apply plain_empty.
    - now apply (Hvalues row column). }
  assert (Hline : forall row, In row rows ->
            csv_line columns row
            = join "," (map (fun column => cell_text (own_value row column)) columns)).
  { intros row Hrow. unfold csv_line. f_equal. apply map_ext_in. intros column Hcol.
    rewrite (Hget row column Hrow Hcol). apply escapeCsvValue_plain. now apply Hcell. }
  assert (Hcols : columns <> []).
  { intros E. apply Hlast. unfold csv_line. now rewrite E. }
  assert (Hdoc : toCsv rows = join CRLF (map (join ",") (table_of rows))).
  { assert (E : toCsv rows = join CRLF (join "," columns :: map (csv_line columns) rows)).
    { destruct rows; [congruence | reflexivity]. }
    rewrite E. f_equal. unfold table_of. fold columns. cbn [map]. f_equal.
    rewrite map_map. apply map_ext_in. intros row Hrow. now apply Hline. }
  unfold parse_csv. rewrite Hdoc. unfold table_of. fold columns.
  apply read_document.
  - constructor.
    + split; [exact Hcols|]. apply Forall_forall. intros c Hc.
      apply Hnames. now apply collectColumns_In.
    + apply Forall_forall. intros line Hl. apply in_map_iff in Hl.
      destruct Hl as [row [<- Hrow]]. split.
      * destruct columns; [congruence | discriminate].
      * apply Forall_forall. intros x Hx. apply in_map_iff in Hx.
        destruct Hx as [column [<- _]]. now apply Hcell.
  - rewrite (last_map _ rows [] columns Hne).
    rewrite <- Hline; [exact Hlast|].
    destruct rows as [|r0 rs]; [congruence|].
    apply (@exists_last _ (r0 :: rs)) in Hne. destruct Hne as [l' [a E]].
    rewrite E. rewrite last_last. apply in_or_app. right. now left.
Qed.

(** The amended C7 at the sample rows. *)
Lemma toCsv_round_trip_witness :
  parse_csv (toCsv sample_rows) = table_of sample_rows.
Proof.
  apply toCsv_round_trip.
  - intros c [row [Hrow Hc]]. unfold sample_rows in Hrow. simpl in Hrow.
    destruct Hrow as [<-|[<-|[]]]; simpl in Hc;
      repeat (destruct Hc as [<-|Hc]; [unfold plain; simpl; intuition discriminate|]);
      contradiction.
  - intros row k v Hrow Hv. unfold sample_rows in Hrow. simpl in Hrow.
    destruct Hrow as [<-|[<-|[]]]; simpl in Hv;
      repeat (destruct Hv as [E|Hv];
              [inversion E; subst; unfold plain; simpl; intuition discriminate|]);
      contradiction.
  - intros row c _ [row' [Hrow' Hc]] Hi. exfalso. apply Hi.
    unfold sample_rows in Hrow'. simpl in Hrow'.
    destruct Hrow' as [<-|[<-|[]]]; simpl in Hc;
      repeat (destruct Hc as [<-|Hc]; [reflexivity|]); contradiction.
  - discriminate.
  - discriminate.
Defined.

(** C7 as stated fails, in four ways.  A row whose single value is null
    is written as an empty last line, which a reader takes for the line
    break that ends the header: the row is lost.  A field name is written
    as it is, so one that holds a comma is read back as two columns.  A
    value that holds a carriage return and no comma, quote or line feed is
    written without quotes, and is read back as two records.  And a row
    that lacks the column [constructor] of another row answers with the
    function it inherits under that name, whose text is written in the
    place of the empty field: the document holds a value that no row
    has. *)
Lemma toCsv_round_trip_fails :
  (toCsv [[("a", JNull)]] = "a" +++ CRLF
   /\ parse_csv (toCsv [[("a", JNull)]]) = [["a"]]
   /\ table_of [[("a", JNull)]] = [["a"]; [""]])
  /\ (toCsv [[("a,b", JString "x")]] = "a,b" +++ CRLF +++ "x"
      /\ parse_csv (toCsv [[("a,b", JString "x")]]) = [["a"; "b"]; ["x"]]
      /\ table_of [[("a,b", JString "x")]] = [["a,b"]; ["x"]])
  /\ (toCsv [[("a", JString ("x" +++ str1 CR +++ "y"))]]
      = "a" +++ CRLF +++ "x" +++ str1 CR +++ "y"
      /\ test_special ("x" +++ str1 CR +++ "y") = false
      /\ parse_csv (toCsv [[("a", JString ("x" +++ str1 CR +++ "y"))]])
         = [["a"]; ["x"]; ["y"]]
      /\ table_of [[("a", JString ("x" +++ str1 CR +++ "y"))]]
         = [["a"]; ["x" +++ str1 CR +++ "y"]])
  /\ (toCsv [[("constructor", JString "x")]; [("a", JString "y")]]
      = "constructor,a" +++ CRLF +++ "x," +++ CRLF
        +++ "function Object() { [native code] },y"
      /\ parse_csv (toCsv [[("constructor", JString "x")]; [("a", JString "y")]])
         = [["constructor"; "a"]; ["x"; ""];
            ["function Object() { [native code] }"; "y"]]
      /\ table_of [[("constructor", JString "x")]; [("a", JString "y")]]
         = [["constructor"; "a"]; ["x"; ""]; [""; "y"]]).
Proof. repeat split; reflexivity. Qed.

(* ================================================================== *)
(** * Part VII.  Date ranges (C9) *)

(** C9 (as amended).  In the log viewer a range whose two bounds are
    present and whose start is after its end is rejected before anything
    is asked of the store or of the export endpoint: [load] leaves the
    error message of an invalid range and no rows, [handleExport] leaves
    the same message, and neither issues a request. *)
Theorem viewer_rejects_reversed_range
  (parseISO : string -> option Z) (tz : Z) (store : Query -> QueryResult)
  (fetch_ok : option string -> option string -> bool) (cancelled : bool)
  (startDate endDate : string) (st : ViewerState) (s e : Z) :
  normaliseDateInput parseISO startDate = Some s ->
  normaliseDateInput parseISO endDate = Some e ->
  s > e ->
  load parseISO tz store cancelled startDate endDate st
  = ({| v_rows := []; v_loading := false; v_error := Some INVALID_RANGE;
        v_exporting := v_exporting st |}, [])
  /\ handleExport parseISO fetch_ok startDate endDate st
     = ({| v_rows := v_rows st; v_loading := v_loading st;
           v_error := Some INVALID_RANGE; v_exporting := false |}, []).
Proof.
  intros Hs He Hgt. unfold load, handleExport. rewrite Hs, He. simpl.
  assert (E : (s >? e) = true) by (apply Z.gtb_lt; lia).
  now rewrite E.
Qed.

(** The amended C9 for the range 2024-05-10 to 2024-05-01. *)
Lemma viewer_rejects_reversed_range_witness :
  load (parseISO_date WIB) WIB empty_store false "2024-05-10" "2024-05-01" idle_viewer
  = ({| v_rows := []; v_loading := false; v_error := Some INVALID_RANGE;
        v_exporting := false |}, [])
  /\ handleExport (parseISO_date WIB) (fun _ _ => true) "2024-05-10" "2024-05-01"
       idle_viewer
     = ({| v_rows := []; v_loading := false; v_error := Some INVALID_RANGE;
           v_exporting := false |}, []).
Proof.
  apply (viewer_rejects_reversed_range (parseISO_date WIB) WIB empty_store
           (fun _ _ => true) false "2024-05-10" "2024-05-01" idle_viewer
           1715274000000 1714496400000).
  - reflexivity.
  - reflexivity.
  - lia.
Defined.

(** C9 as stated fails on the export route: [GET] checks that each bound
    parses, not their order.  For start=2024-05-10 and end=2024-05-01 it
    issues the read, with a lower bound after the upper one, and answers
    with a CSV document. *)
Lemma GET_reads_reversed_range :
  GET (parseISO_date WIB) WIB empty_store (Some "2024-05-10") (Some "2024-05-01")
  = (CsvResponse "", [export_query (Some 1715274000000) (Some 1714582799999)])
  /\ 1715274000000 > 1714582799999.
Proof. split; [reflexivity | lia]. Qed.

(** Whatever the order of two accepted bounds, [GET] issues its read. *)
Remark GET_issues_read
  (parseISO : string -> option Z) (tz : Z) (store : Query -> QueryResult)
  (startParam endParam : option string) (startDate endDate : option Z) :
  parseDateParam parseISO tz startParam true = inr startDate ->
  parseDateParam parseISO tz endParam false = inr endDate ->
  snd (GET parseISO tz store startParam endParam) = [export_query startDate endDate].
Proof.
  intros Hs He. unfold GET. rewrite Hs, He. fold (export_query startDate endDate).
  destruct (error (store (export_query startDate endDate))); reflexivity.
Qed.

(* ================================================================== *)
(** * Part VIII.  The dashboards (C1, C2, C3) *)

Lemma find_map_row_same (f : RowState -> RowState) id prev :
  (forall row, characterId (f row) = characterId row) ->
  find_row (map_row id f prev) id = option_map f (find_row prev id).
Proof.
  intros Hid. unfold find_row, map_row.
  induction prev as [|row prev IH]; simpl; [reflexivity|].
  destruct (String.eqb (characterId row) id) eqn:E.
  - now rewrite Hid, E.
  - now rewrite E.
Qed.

Lemma find_map_row_other (f : RowState -> RowState) id other prev :
  (forall row, characterId (f row) = characterId row) ->
  other <> id ->
  find_row (map_row id f prev) other = find_row prev other.
Proof.
  intros Hid Hne. unfold find_row, map_row.
  induction prev as [|row prev IH]; simpl; [reflexivity|].
  destruct (String.eqb (characterId row) id) eqn:E.
  - rewrite Hid. apply String.eqb_eq in E.
    assert (E' : String.eqb (characterId row) other = false)
      by (apply String.eqb_neq; congruence).
    now rewrite E'.
  - destruct (String.eqb (characterId row) other); [reflexivity | exact IH].
Qed.

Lemma FieldKey_eqb_neq a b : FieldKey_eqb a b = false <-> a <> b.
Proof. destruct a, b; simpl; split; congruence. Qed.

Lemma get_set_field row field value key :
  get_field (set_field row field value) key
  = if FieldKey_eqb key field then value else get_field row key.
Proof. destruct field, key; reflexivity. Qed.

Lemma get_field_set_status row started saving err key :
  get_field (set_status row started saving err) key = get_field row key.
Proof. destruct key; reflexivity. Qed.

(** Writing a field and then its former value leaves the fields as they
    were. *)
Lemma set_field_restore row field value a b c started saving err :
  set_status
    (set_field (set_status (set_field row field value) a b c) field (get_field row field))
    started saving err
  = set_status row started saving err.
Proof. destruct row, field; reflexivity. Qed.

Ltac keeps_id := intros; reflexivity.

(** What an invocation holds when its row exists. *)
Lemma snapshot_found rendered now now' id field value targetRow :
  find_row rendered id = Some targetRow ->
  exists e,
    EditDashboard.snapshot rendered now now' id field value = Some e
    /\ EditDashboard.e_characterId e = id
    /\ EditDashboard.e_field e = field
    /\ EditDashboard.e_value e = value
    /\ EditDashboard.previousValue e = get_field targetRow field
    /\ EditDashboard.previousGoldenStartedAt e = golden_started_at targetRow
    /\ EditDashboard.nextGoldenStartedAt e
       = EditDashboard.computeNextGoldenStartedAt targetRow field value now.
Proof.
  intros H. unfold EditDashboard.snapshot. rewrite H.
  eexists. split; [reflexivity|]. simpl. repeat split.
Qed.

(** C1 (as amended).  In the dashboard of [handleValueChange], an edit of
    an existing row whose upsert fails leaves that row with every field
    and the activation timestamp as they were before the edit, not saving,
    and with the failure's message as [lastError] (non-empty when that
    message is); the other rows are as before.  Whatever state the failure
    meets, it writes the edited field and the timestamp of the edit's own
    snapshot. *)
Theorem handleValueChange_failure_restores
  (st : EditDashboard.Dashboard) (now now' : Z) (id : string)
  (field : FieldKey) (value message : string) (targetRow : RowState) :
  find_row (EditDashboard.rows st) id = Some targetRow ->
  let st' := EditDashboard.handleValueChange st now now' id field value (Some message) in
  exists row',
    find_row (EditDashboard.rows st') id = Some row'
    /\ row' = set_status targetRow (golden_started_at targetRow) false (Some message)
    /\ (forall key, get_field row' key = get_field targetRow key)
    /\ golden_started_at row' = golden_started_at targetRow
    /\ isSaving row' = false
    /\ lastError row' = Some message
    /\ (message <> "" -> lastError row' <> Some "")
    /\ (forall other, other <> id ->
          find_row (EditDashboard.rows st') other = find_row (EditDashboard.rows st) other)
    /\ (forall e current row,
          find_row (EditDashboard.rows current) (EditDashboard.e_characterId e) = Some row ->
          find_row (EditDashboard.rows (EditDashboard.on_failure e message current))
                   (EditDashboard.e_characterId e)
          = Some (set_status
                    (set_field row (EditDashboard.e_field e) (EditDashboard.previousValue e))
                    (EditDashboard.previousGoldenStartedAt e) false (Some message))).
Proof.
  intros Hfind st'.
  destruct (snapshot_found (EditDashboard.rows st) now now' id field value targetRow Hfind)
    as [e (He & Eid & Ef & Ev & Epv & Epg & Eng)].
  assert (Est : st' = EditDashboard.on_failure e message (EditDashboard.optimistic e st)).
  { unfold st', EditDashboard.handleValueChange. now rewrite He. }
  exists (set_status targetRow (golden_started_at targetRow) false (Some message)).
  split.
  { rewrite Est. unfold EditDashboard.on_failure, EditDashboard.optimistic. simpl.
    rewrite Eid, !find_map_row_same by keeps_id. rewrite Hfind. simpl.
    rewrite Ef, Epv, Epg. now rewrite set_field_restore. }
  split; [reflexivity|].
  split; [intros key; apply get_field_set_status|].
  repeat split.
  - intros Hne E. inversion E. contradiction.
  - intros other Hne. rewrite Est.
    unfold EditDashboard.on_failure, EditDashboard.optimistic. simpl.
    rewrite Eid, !find_map_row_other by (try keeps_id; exact Hne). reflexivity.
  - intros e0 current row Hrow.
    unfold EditDashboard.on_failure. simpl.
    rewrite find_map_row_same by keeps_id. now rewrite Hrow.
Qed.

(** The amended C1 for a failed edit of the first sample row. *)
Lemma handleValueChange_failure_restores_witness :
  exists row',
    find_row (EditDashboard.rows
                (EditDashboard.handleValueChange sample_dashboard
                   noon_1_May_2024 noon_1_May_2024 "c1" golden_goose_key "Active"
                   (Some "connection lost"))) "c1" = Some row'
    /\ row' = set_status (default_row "c1" "Lancea") None false (Some "connection lost").
Proof.
  destruct (handleValueChange_failure_restores sample_dashboard
              noon_1_May_2024 noon_1_May_2024 "c1" golden_goose_key "Active"
              "connection lost" (default_row "c1" "Lancea") eq_refl)
    as [row' (H1 & H2 & _)].
  exists row'. split; [exact H1 | exact H2].
Defined.

(** C1 as stated fails.  In the dashboard of [handleValueChange] a failure
    whose message is the empty string leaves the empty string as
    [lastError].  In the dashboard of [upsertFor] the catch restores
    nothing: after a failed change of the daily state to Completed the row
    still shows Completed. *)
Lemma failed_edit_not_as_claimed :
  find_row (EditDashboard.rows
              (EditDashboard.handleValueChange sample_dashboard
                 noon_1_May_2024 noon_1_May_2024 "c1" daily_key "Completed"
                 (Some ""))) "c1"
  = Some (set_status (default_row "c1" "Lancea") None false (Some ""))
  /\ find_row
       (UpsertDashboard.upsertFor
          [default_row "c1" "Lancea"] [default_row "c1" "Lancea"] noon_1_May_2024
          "c1" (UpsertDashboard.patch_of_change daily_key "Completed" noon_1_May_2024)
          (Some (UpsertDashboard.ThrownError "connection lost"))) "c1"
     = Some (set_status
               (set_field (default_row "c1" "Lancea") daily_key "Completed")
               None false (Some "connection lost")).
Proof. split; reflexivity. Qed.

(** The catch of [upsertFor] keeps what the optimistic update wrote. *)
Remark upsertFor_catch_keeps_patch
  (rendered prev : list RowState) (now' : Z) (id : string)
  (patch : UpsertDashboard.Patch) (t : UpsertDashboard.Thrown) (row baseRow : RowState) :
  find_row prev id = Some row ->
  find_row rendered id = Some baseRow ->
  find_row (UpsertDashboard.upsertFor rendered prev now' id patch (Some t)) id
  = Some (set_status (UpsertDashboard.apply_patch row patch)
            (golden_started_at (UpsertDashboard.apply_patch row patch))
            false (Some (UpsertDashboard.thrown_message t))).
Proof.
  intros Hrow Hbase. unfold UpsertDashboard.upsertFor. rewrite Hbase.
  unfold UpsertDashboard.on_catch, UpsertDashboard.optimistic.
  rewrite !find_map_row_same by keeps_id. now rewrite Hrow.
Qed.

(** In the dashboard of [upsertFor] the optimistic update disables the
    selects of the row: no second edit of it is issued before the answer. *)
Remark upsertFor_disables_row
  (prev : list RowState) (id : string) (patch : UpsertDashboard.Patch) (row : RowState) :
  find_row prev id = Some row ->
  option_map UpsertDashboard.select_disabled
    (find_row (UpsertDashboard.optimistic id patch prev) id) = Some true.
Proof.
  intros H. unfold UpsertDashboard.optimistic.
  rewrite find_map_row_same by keeps_id. now rewrite H.
Qed.

Lemma find_optimistic e st row :
  find_row (EditDashboard.rows st) (EditDashboard.e_characterId e) = Some row ->
  find_row (EditDashboard.rows (EditDashboard.optimistic e st))
           (EditDashboard.e_characterId e)
  = Some (set_status (set_field row (EditDashboard.e_field e) (EditDashboard.e_value e))
                     (EditDashboard.nextGoldenStartedAt e) true None).
Proof.
  intros H. unfold EditDashboard.optimistic. simpl.
  rewrite find_map_row_same by keeps_id. now rewrite H.
Qed.

Lemma find_settle e response st row :
  find_row (EditDashboard.rows st) (EditDashboard.e_characterId e) = Some row ->
  find_row (EditDashboard.rows (EditDashboard.settle e response st))
           (EditDashboard.e_characterId e)
  = Some (match response with
          | Some message =>
              set_status
                (set_field row (EditDashboard.e_field e) (EditDashboard.previousValue e))
                (EditDashboard.previousGoldenStartedAt e) false (Some message)
          | None => set_status row (EditDashboard.nextGoldenStartedAt e) false None
          end).
Proof.
  intros H. destruct response as [message|]; simpl;
    unfold EditDashboard.on_failure, EditDashboard.on_success; simpl;
    rewrite find_map_row_same by keeps_id; now rewrite H.
Qed.

Lemma find_other_optimistic e st other :
  other <> EditDashboard.e_characterId e ->
  find_row (EditDashboard.rows (EditDashboard.optimistic e st)) other
  = find_row (EditDashboard.rows st) other.
Proof.
  intros H. unfold EditDashboard.optimistic. simpl.
  now rewrite find_map_row_other by (try keeps_id; exact H).
Qed.

Lemma find_other_settle e response st other :
  other <> EditDashboard.e_characterId e ->
  find_row (EditDashboard.rows (EditDashboard.settle e response st)) other
  = find_row (EditDashboard.rows st) other.
Proof.
  intros H. destruct response; simpl;
    unfold EditDashboard.on_failure, EditDashboard.on_success; simpl;
    now rewrite find_map_row_other by (try keeps_id; exact H).
Qed.

Lemma FieldKey_eqb_refl a : FieldKey_eqb a a = true.
Proof. now destruct a. Qed.

(** Reads a field through the updates written on a row. *)
Ltac read_fields :=
  repeat first [rewrite get_field_set_status | rewrite get_set_field];
  repeat match goal with
         | H : FieldKey_eqb _ _ = _ |- _ => rewrite H
         end;
  repeat rewrite FieldKey_eqb_refl.

(** What an answer writes on the row of its edit: the failure puts back
    the field of the edit, the success writes no field; both write the
    timestamp the invocation holds, the saving flag and the error. *)
Lemma settle_writes e response st row :
  find_row (EditDashboard.rows st) (EditDashboard.e_characterId e) = Some row ->
  exists row',
    find_row (EditDashboard.rows (EditDashboard.settle e response st))
             (EditDashboard.e_characterId e) = Some row'
    /\ (forall key, key <> EditDashboard.e_field e ->
          get_field row' key = get_field row key)
    /\ golden_started_at row'
       = match response with
         | Some _ => EditDashboard.previousGoldenStartedAt e
         | None => EditDashboard.nextGoldenStartedAt e
         end
    /\ isSaving row' = false
    /\ lastError row' = response.
Proof.
  intros H. rewrite (find_settle e response st row H). eexists.
  split; [reflexivity|].
  destruct response; (split; [|repeat split]).
  - intros key Hk. apply FieldKey_eqb_neq in Hk. now read_fields.
  - intros key Hk. now read_fields.
Qed.

(** C2 (as amended).  In the dashboard of [handleValueChange], let edit A
    of field [fieldA] and then edit B of another field [fieldB] of the same
    row be issued before A is answered, B from the render that shows A's
    optimistic value.  If A's upsert fails and B's succeeds, then once both
    answers are applied, in either order, the row has B's value in
    [fieldB], the value it had before A in [fieldA], every other field as
    before, and is not saving; the other rows are as before.  The
    activation timestamp and the error are those of the answer applied
    last: the timestamp B computed at issue and no error when it is B's
    success, the timestamp of before A and A's message when it is A's
    failure.  So the row is the one of before A with B's value, that
    timestamp and that error; and when neither edit is of the Golden Goose
    the timestamp is the one of before A in both orders.  Each answer
    writes no field but the one of its own edit, and writes the timestamp
    its invocation holds whatever field it edited. *)
Theorem two_edits_settle_independently
  (st0 : EditDashboard.Dashboard) (id : string)
  (fieldA : FieldKey) (valueA : string) (nowA nowA' : Z)
  (fieldB : FieldKey) (valueB : string) (nowB nowB' : Z)
  (message : string) (a_first : bool) (row0 : RowState) :
  find_row (EditDashboard.rows st0) id = Some row0 ->
  fieldA <> fieldB ->
  (exists final rowF,
      two_edits st0 id fieldA valueA nowA nowA' fieldB valueB nowB nowB' message a_first
      = Some final
      /\ find_row (EditDashboard.rows final) id = Some rowF
      /\ get_field rowF fieldB = valueB
      /\ get_field rowF fieldA = get_field row0 fieldA
      /\ (forall key, key <> fieldA -> key <> fieldB ->
            get_field rowF key = get_field row0 key)
      /\ isSaving rowF = false
      /\ (forall other, other <> id ->
            find_row (EditDashboard.rows final) other
            = find_row (EditDashboard.rows st0) other)
      /\ golden_started_at rowF
         = (if a_first
            then EditDashboard.computeNextGoldenStartedAt
                   (set_status (set_field row0 fieldA valueA)
                      (EditDashboard.computeNextGoldenStartedAt row0 fieldA valueA nowA)
                      true None)
                   fieldB valueB nowB
            else golden_started_at row0)
      /\ lastError rowF = (if a_first then None else Some message)
      /\ rowF = set_status (set_field row0 fieldB valueB)
                  (golden_started_at rowF) false (lastError rowF)
      /\ (fieldA <> golden_goose_key -> fieldB <> golden_goose_key ->
          golden_started_at rowF = golden_started_at row0))
  /\ (forall e response st row,
        find_row (EditDashboard.rows st) (EditDashboard.e_characterId e) = Some row ->
        exists row',
          find_row (EditDashboard.rows (EditDashboard.settle e response st))
                   (EditDashboard.e_characterId e) = Some row'
          /\ (forall key, key <> EditDashboard.e_field e ->
                get_field row' key = get_field row key)
          /\ golden_started_at row'
             = match response with
               | Some _ => EditDashboard.previousGoldenStartedAt e
               | None => EditDashboard.nextGoldenStartedAt e
               end
          /\ isSaving row' = false
          /\ lastError row' = response).
Proof.
  intros Hfind Hne. split; [|apply settle_writes].
  destruct (snapshot_found (EditDashboard.rows st0) nowA nowA' id fieldA valueA row0 Hfind)
    as [eA (HeA & EidA & EfA & EvA & EpvA & EpgA & EngA)].
  pose proof Hfind as H1. rewrite <- EidA in H1.
  apply (find_optimistic eA st0 row0) in H1. rewrite EidA in H1.
  set (st1 := EditDashboard.optimistic eA st0) in *.
  destruct (snapshot_found (EditDashboard.rows st1) nowB nowB' id fieldB valueB _ H1)
    as [eB (HeB & EidB & EfB & EvB & EpvB & EpgB & EngB)].
  pose proof H1 as H2. rewrite <- EidB in H2.
  apply (find_optimistic eB st1) in H2.
  set (st2 := EditDashboard.optimistic eB st1) in *.
  assert (NAB : FieldKey_eqb fieldA fieldB = false) by (now apply FieldKey_eqb_neq).
  assert (NBA : FieldKey_eqb fieldB fieldA = false)
    by (apply FieldKey_eqb_neq; congruence).
  unfold two_edits. rewrite HeA. fold st1. rewrite HeB. fold st2.
  destruct a_first.
  - (* A's failure is applied first, then B's success *)
    pose proof H2 as H3. rewrite EidB, <- EidA in H3.
    apply (find_settle eA (Some message) st2) in H3. rewrite EidA, <- EidB in H3.
    apply (find_settle eB None) in H3. rewrite EidB in H3.
    eexists. eexists. split; [reflexivity|]. split; [exact H3|].
    rewrite EfA, EfB, EvA, EvB, EpvA, EngB, EngA.
    split; [now read_fields|]. split; [now read_fields|].
    split; [intros key KA KB; apply FieldKey_eqb_neq in KA, KB; now read_fields|].
    split; [reflexivity|].
    split.
    { intros other Ho.
      rewrite find_other_settle by (now rewrite EidB).
      rewrite find_other_settle by (now rewrite EidA).
      unfold st2. rewrite find_other_optimistic by (now rewrite EidB).
      unfold st1. now rewrite find_other_optimistic by (now rewrite EidA). }
    split; [reflexivity|]. split; [reflexivity|].
    split.
    { clear - Hne. destruct fieldA, fieldB; try congruence; reflexivity. }
    intros GA GB. apply FieldKey_eqb_neq in GA, GB.
    cbn [golden_started_at set_status].
    unfold EditDashboard.computeNextGoldenStartedAt. rewrite GA, GB. reflexivity.
  - (* B's success is applied first, then A's failure *)
    pose proof H2 as H3.
    apply (find_settle eB None st2) in H3. rewrite EidB, <- EidA in H3.
    apply (find_settle eA (Some message)) in H3. rewrite EidA in H3.
    eexists. eexists. split; [reflexivity|]. split; [exact H3|].
    rewrite EfA, EfB, EvA, EvB, EpvA, EpgA.
    split; [now read_fields|]. split; [now read_fields|].
    split; [intros key KA KB; apply FieldKey_eqb_neq in KA, KB; now read_fields|].
    split; [reflexivity|].
    split.
    { intros other Ho.
      rewrite find_other_settle by (now rewrite EidA).
      rewrite find_other_settle by (now rewrite EidB).
      unfold st2. rewrite find_other_optimistic by (now rewrite EidB).
      unfold st1. now rewrite find_other_optimistic by (now rewrite EidA). }
    split; [reflexivity|]. split; [reflexivity|].
    split; [|reflexivity].
    clear - Hne. destruct fieldA, fieldB; try congruence; reflexivity.
Qed.

(** The amended C2 on the first sample row: the daily state is edited,
    then the WTP state; the first upsert fails, the second succeeds. *)
Lemma two_edits_settle_independently_witness :
  exists final rowF,
    two_edits sample_dashboard "c1" daily_key "Completed" 10 11
      wtp_key "Cleared" 20 21 "connection lost" true = Some final
    /\ find_row (EditDashboard.rows final) "c1" = Some rowF
    /\ get_field rowF wtp_key = "Cleared"
    /\ get_field rowF daily_key = "Not Started"
    /\ golden_started_at rowF = None
    /\ rowF = set_status (set_field (default_row "c1" "Lancea") wtp_key "Cleared")
                None false None.
Proof.
  destruct (proj1 (two_edits_settle_independently sample_dashboard "c1"
                     daily_key "Completed" 10 11 wtp_key "Cleared" 20 21
                     "connection lost" true (default_row "c1" "Lancea")
                     eq_refl ltac:(discriminate)))
    as [final [rowF (H1 & H2 & H3 & H4 & _ & _ & _ & H5 & H6 & H7 & _)]].
  exists final, rowF.
  split; [exact H1|]. split; [exact H2|]. split; [exact H3|]. split; [exact H4|].
  split; [exact H5|]. rewrite H5, H6 in H7. exact H7.
Defined.

(** C2 as stated fails where one of the two edits is of the Golden Goose:
    the answers are not independent in the activation timestamp, which
    every answer writes.  When A edits the daily state and fails, B
    activates the Golden Goose and succeeds, and A's failure is applied
    last, the row shows the Golden Goose Active without its timestamp:
    A's answer took back what B's edit had set.  When A is the activation
    and fails first, and B edits the daily state and succeeds, the flag is
    back to Inactive and the row keeps the timestamp of the activation
    that failed. *)
Lemma two_edits_timestamp_not_independent :
  option_map
    (fun final => option_map
                    (fun row => (golden_goose row, golden_started_at row, daily row))
                    (find_row (EditDashboard.rows final) "c1"))
    (two_edits sample_dashboard "c1" daily_key "Completed" 10 11
       golden_goose_key "Active" noon_1_May_2024 21 "connection lost" false)
  = Some (Some ("Active", None, "Not Started"))
  /\ option_map
       (fun final => option_map
                       (fun row => (golden_goose row, golden_started_at row, daily row))
                       (find_row (EditDashboard.rows final) "c1"))
       (two_edits sample_dashboard "c1" golden_goose_key "Active" noon_1_May_2024 11
          daily_key "Completed" 20 21 "connection lost" true)
     = Some (Some ("Inactive", Some noon_1_May_2024, "Completed")).
Proof. split; reflexivity. Qed.

(** The activation timestamp is not a field of its own edit only: every
    edit carries it.  When the failed edit A is the activation of the
    Golden Goose and its answer comes first, the success of B writes back
    the timestamp B read at issue, which is A's optimistic one: the flag
    is back to Inactive, the timestamp is not. *)
Remark two_edits_stale_timestamp :
  option_map
    (fun final => option_map (fun row => (golden_goose row, golden_started_at row))
                    (find_row (EditDashboard.rows final) "c1"))
    (two_edits sample_dashboard "c1" golden_goose_key "Active" noon_1_May_2024 11
       daily_key "Completed" 20 21 "connection lost" true)
  = Some (Some ("Inactive", Some noon_1_May_2024)).
Proof. reflexivity. Qed.

Lemma calendar_days_shift (tz t n : Z) :
  (t + n * MS_PER_DAY + tz) / MS_PER_DAY = (t + tz) / MS_PER_DAY + n.
Proof.
  replace (t + n * MS_PER_DAY + tz) with (t + tz + n * MS_PER_DAY) by lia.
  apply Z.div_add. unfold MS_PER_DAY. lia.
Qed.

(** C3 (as amended).  In the dashboard of [handleValueChange], an edit of
    an existing row shows at once, and keeps after a successful upsert, the
    timestamp computed so: the instant of the edit when the Golden Goose
    field is set to Active, none when it is set to Inactive, the row's
    timestamp unchanged when another field is edited.  With activation
    timestamp T that dashboard's expiry cell reports expired one second
    after T plus 7 days and not expired at T plus 6 days.  The expiry cell
    of the dashboard of [upsertFor] counts calendar days: it reports
    expired exactly from the first calendar day after that of T plus 7
    days, so not at T plus 6 days, and at T plus 8 days. *)
Theorem golden_timestamp_and_expiry
  (st : EditDashboard.Dashboard) (now now' : Z) (id : string)
  (field : FieldKey) (value : string) (targetRow : RowState) :
  find_row (EditDashboard.rows st) id = Some targetRow ->
  (exists e,
      EditDashboard.snapshot (EditDashboard.rows st) now now' id field value = Some e
      /\ find_row (EditDashboard.rows (EditDashboard.optimistic e st)) id
         = Some (set_status (set_field targetRow field value)
                   (EditDashboard.nextGoldenStartedAt e) true None)
      /\ find_row (EditDashboard.rows
                     (EditDashboard.handleValueChange st now now' id field value None)) id
         = Some (set_status (set_field targetRow field value)
                   (EditDashboard.nextGoldenStartedAt e) false None)
      /\ (field = golden_goose_key -> value = "Active" ->
          EditDashboard.nextGoldenStartedAt e = Some now)
      /\ (field = golden_goose_key -> value = "Inactive" ->
          EditDashboard.nextGoldenStartedAt e = None)
      /\ (field <> golden_goose_key ->
          EditDashboard.nextGoldenStartedAt e = golden_started_at targetRow))
  /\ (forall row T, golden_started_at row = Some T ->
        EditDashboard.isExpired row (T + 7 * MS_PER_DAY + 1000) = true
        /\ EditDashboard.isExpired row (T + 6 * MS_PER_DAY) = false)
  /\ (forall tz row T, golden_started_at row = Some T ->
        (forall at_, UpsertDashboard.isExpired tz row at_ = true
                     <-> (T + 7 * MS_PER_DAY + tz) / MS_PER_DAY < (at_ + tz) / MS_PER_DAY)
        /\ UpsertDashboard.isExpired tz row (T + 6 * MS_PER_DAY) = false
        /\ UpsertDashboard.isExpired tz row (T + 8 * MS_PER_DAY) = true).
Proof.
  intros Hfind. split; [|split].
  - destruct (snapshot_found (EditDashboard.rows st) now now' id field value targetRow Hfind)
      as [e (He & Eid & Ef & Ev & Epv & Epg & Eng)].
    exists e. split; [exact He|].
    assert (Hopt : find_row (EditDashboard.rows (EditDashboard.optimistic e st)) id
                   = Some (set_status (set_field targetRow field value)
                             (EditDashboard.nextGoldenStartedAt e) true None)).
    { rewrite <- Eid in Hfind |- *. rewrite (find_optimistic e st targetRow Hfind).
      now rewrite Ef, Ev. }
    split; [exact Hopt|]. split.
    { unfold EditDashboard.handleValueChange. rewrite He.
      rewrite <- Eid in Hopt |- *.
      now rewrite (find_settle e None _ _ Hopt). }
    rewrite Eng. unfold EditDashboard.computeNextGoldenStartedAt. repeat split.
    + intros -> ->. reflexivity.
    + intros -> ->. reflexivity.
    + intros Hf. apply FieldKey_eqb_neq in Hf. now rewrite Hf.
  - intros row T HT. unfold EditDashboard.isExpired, isAfter, addDays. rewrite HT.
    split; [apply Z.gtb_lt | rewrite Z.gtb_ltb; apply Z.ltb_ge];
      unfold MS_PER_DAY; lia.
  - intros tz row T HT. unfold UpsertDashboard.isExpired, differenceInCalendarDays, addDays.
    rewrite HT. split; [|split].
    + intros at_. rewrite Z.ltb_lt. lia.
    + apply Z.ltb_ge. rewrite !calendar_days_shift. lia.
    + apply Z.ltb_lt. rewrite !calendar_days_shift. lia.
Qed.

(** The amended C3 for the activation of the Golden Goose of the first
    sample row at noon (WIB) of 1 May 2024. *)
Lemma golden_timestamp_and_expiry_witness :
  exists e,
    EditDashboard.snapshot (EditDashboard.rows sample_dashboard)
      noon_1_May_2024 noon_1_May_2024 "c1" golden_goose_key "Active" = Some e
    /\ find_row (EditDashboard.rows
                   (EditDashboard.handleValueChange sample_dashboard
                      noon_1_May_2024 noon_1_May_2024 "c1" golden_goose_key "Active"
                      None)) "c1"
       = Some (set_status (set_field (default_row "c1" "Lancea") golden_goose_key "Active")
                 (EditDashboard.nextGoldenStartedAt e) false None)
    /\ EditDashboard.nextGoldenStartedAt e = Some noon_1_May_2024.
Proof.
  destruct (proj1 (golden_timestamp_and_expiry sample_dashboard
                     noon_1_May_2024 noon_1_May_2024 "c1" golden_goose_key "Active"
                     (default_row "c1" "Lancea") eq_refl))
    as [e (H1 & _ & H3 & H4 & _)].
  exists e. split; [exact H1|]. split; [exact H3|]. now apply H4.
Defined.

(** C3 as stated fails on the expiry cell of the dashboard of [upsertFor]:
    for an activation at noon (WIB) of 1 May 2024, one second after T plus
    7 days is still the calendar day of the expiry, and the cell reports
    not expired. *)
Lemma calendar_expiry_not_after_one_second :
  UpsertDashboard.isExpired WIB
    (set_status (default_row "c1" "Lancea") (Some noon_1_May_2024) false None)
    (noon_1_May_2024 + 7 * MS_PER_DAY + 1000) = false
  /\ differenceInCalendarDays WIB (addDays noon_1_May_2024 7)
       (noon_1_May_2024 + 7 * MS_PER_DAY + 1000) = 0.
Proof. split; reflexivity. Qed.
